(** * goinglogging: a shallow embedding of [goinglogging.h]

    The header is embedded as follows.

    - [prefix] is the [enum class prefix : uint32_t]; its values are natural
      numbers and the three operators are the bitwise operations of [N].
    - The three file-level statics [curPrefixes], [outputEnabled] and
      [colorEnabled] form the record [config]; setters return the updated
      record, getters read it.
    - Text sent to [std::cout] is a [string]; an [operator<<] is a function
      returning the bytes it inserts.  The stream is taken in its default
      formatting state (width 0, decimal, no [boolalpha]).
    - The template dispatch of [Stringifier<T>] is a function over a universe
      [ty] of static types, const qualification included, because overload
      resolution depends on it.
    - A logging statement ([l], [l_arr], [l_mat]) yields a [trace] of events:
      the construction of a [Prefixer], the clock, local-time and thread-id
      queries, and the writes.
    - Of the test programs, the loop of [prefixes.cpp] over the masks is a
      fold of its body over the values the [PERM] loops visit, and the driver
      [run_all.cpp] is a function of what the host answers to [opendir],
      [readdir] and [std::system]. *)

From Stdlib Require Import ZArith NArith List String Ascii Bool Lia DecimalString.
Import ListNotations.
Open Scope string_scope.
Open Scope N_scope.

Set Implicit Arguments.

(** ** Strings *)

Module Str.

(** [cat l] is what a run of insertions [os << x1 << ... << xn] leaves in the
    stream. *)
Fixpoint cat (l : list string) : string :=
  match l with
  | [] => ""
  | x :: r => x ++ cat r
  end.

(** [ends_with s suf]: the last characters of [s] are [suf]. *)
Definition ends_with (s suf : string) : Prop := exists pre, s = pre ++ suf.

(** Occurrence of a character in a string. *)
Fixpoint mem (c : ascii) (s : string) : bool :=
  match s with
  | "" => false
  | String x r => Ascii.eqb x c || mem c r
  end.

(** The characters from position [n] on: the C string at [p + n]. *)
Fixpoint drop (n : nat) (s : string) : string :=
  match n, s with
  | O, _ => s
  | S n', String _ r => drop n' r
  | S _, "" => ""
  end.

End Str.

(** ** Number rendering *)

(** [operator<<] on a signed integer in the default stream state. *)
Definition dec_Z (z : Z) : string := NilEmpty.string_of_int (Z.to_int z).

(** [operator<<] on an unsigned integer ([size_t]) in the default state. *)
Definition dec_N (n : N) : string := NilEmpty.string_of_uint (N.to_uint n).

(** ** [enum class prefix : uint32_t] *)

Definition prefix : Type := N.

Definition NONE      : prefix := 0.
Definition FILE      : prefix := N.shiftl 1 0.
Definition LINE      : prefix := N.shiftl 1 1.
Definition FUNCTION  : prefix := N.shiftl 1 2.
Definition TIME      : prefix := N.shiftl 1 3.
Definition THREAD    : prefix := N.shiftl 1 4.
Definition TYPE_NAME : prefix := N.shiftl 1 5.

(** [operator&], [operator|], [operator^].  The casts to and from [uint32_t]
    change nothing: see [prefix_ops_in_range]. *)
Definition prefix_and (lhs rhs : prefix) : prefix := N.land lhs rhs.
Definition prefix_or  (lhs rhs : prefix) : prefix := N.lor lhs rhs.
Definition prefix_xor (lhs rhs : prefix) : prefix := N.lxor lhs rhs.

Declare Scope prefix_scope.
Delimit Scope prefix_scope with prefix.
Infix ".&" := prefix_and (at level 40, left associativity) : prefix_scope.
Infix ".|" := prefix_or  (at level 50, left associativity) : prefix_scope.
Infix ".^" := prefix_xor (at level 50, left associativity) : prefix_scope.
Open Scope prefix_scope.

(** [operator&=], [operator|=], [operator^=]: [lhs = lhs op rhs]. *)
Definition prefix_and_assign (lhs rhs : prefix) : prefix := lhs .& rhs.
Definition prefix_or_assign  (lhs rhs : prefix) : prefix := lhs .| rhs.
Definition prefix_xor_assign (lhs rhs : prefix) : prefix := lhs .^ rhs.

(** [(curPrefixes & f) != prefix::NONE] *)
Definition has (m f : prefix) : bool := negb ((m .& f) =? NONE).

(** ** The statics of [namespace internal] *)

Record config : Type := Config {
  curPrefixes   : prefix;
  outputEnabled : bool;
  colorEnabled  : bool
}.

Definition initial : config :=
  {| curPrefixes := FILE .| LINE; outputEnabled := true; colorEnabled := false |}.

Definition get_prefixes (c : config) : prefix := curPrefixes c.

Definition set_prefixes (p : prefix) (c : config) : config :=
  {| curPrefixes := p;
     outputEnabled := outputEnabled c;
     colorEnabled := colorEnabled c |}.

Definition is_output_enabled (c : config) : bool := outputEnabled c.

Definition set_output_enabled (e : bool) (c : config) : config :=
  {| curPrefixes := curPrefixes c;
     outputEnabled := e;
     colorEnabled := colorEnabled c |}.

Definition is_color_enabled (c : config) : bool := colorEnabled c.

Definition set_color_enabled (e : bool) (c : config) : config :=
  {| curPrefixes := curPrefixes c;
     outputEnabled := outputEnabled c;
     colorEnabled := e |}.

(** ** Build target and run-time environment *)

(** What the build fixes: whether [_WIN32] is defined, and the width of
    [size_t]. *)
Record target : Type := Target {
  win32     : bool;
  size_bits : N
}.

Definition lp64 : target := {| win32 := false; size_bits := 64 |}.

(** The [sep] of [operator<<(std::ostream&, const Prefixer&)]. *)
Definition path_sep (t : target) : ascii :=
  if win32 t then "\"%char else "/"%char.

(** [std::numeric_limits<size_t>::max()] *)
Definition size_max (t : target) : N := 2 ^ size_bits t - 1.

(** [--i] on a [size_t]: 0 wraps to [size_max]. *)
Definition size_dec (t : target) (i : N) : N :=
  (i + size_max t) mod 2 ^ size_bits t.

(** [++cnt] on a [uint32_t]. *)
Definition incr32 (cnt : N) : N := (cnt + 1) mod 2 ^ 32.

(** [std::tm], the fields [put_time] reads for ["%H:%M:%S"]. *)
Record tm : Type := Tm {
  tm_hour : N;
  tm_min  : N;
  tm_sec  : N
}.

(** What the system answers during one insertion of a [Prefixer]:
    [system_clock::now()] in milliseconds since the epoch, the result of
    [std::localtime] ([None] for a null pointer), and the text
    [operator<<] gives for [std::this_thread::get_id()]. *)
Record environment : Type := Environment {
  now_ms    : Z;
  localtime : option tm;
  thread_id : string
}.

(** ** [class Prefixer] *)

Record Prefixer : Type := MkPrefixer {
  m_file_path : string;
  m_file_line : Z;
  m_func      : string
}.

Definition get_file_path (p : Prefixer) : string := m_file_path p.
Definition get_file_line_number (p : Prefixer) : Z := m_file_line p.
Definition get_function_name (p : Prefixer) : string := m_func p.

(** ** Events of a logging statement *)

Inductive event : Type :=
| Construct (p : Prefixer)   (* Prefixer::Prefixer ran *)
| ClockNow                   (* std::chrono::system_clock::now() *)
| LocalTime                  (* std::localtime *)
| ThreadId                   (* std::this_thread::get_id() *)
| Write (s : string).        (* bytes inserted into std::cout *)

Definition trace : Type := list event.
Bind Scope list_scope with trace.

(** The bytes a trace leaves in the sink. *)
Fixpoint written (tr : trace) : string :=
  match tr with
  | [] => ""
  | Write s :: r => s ++ written r
  | _ :: r => written r
  end.

(** The decorators a trace constructs. *)
Fixpoint constructed (tr : trace) : list Prefixer :=
  match tr with
  | [] => []
  | Construct p :: r => p :: constructed r
  | _ :: r => constructed r
  end.

(** Whether a trace samples the clock or asks for the thread id. *)
Definition is_query (e : event) : bool :=
  match e with
  | ClockNow | LocalTime | ThreadId => true
  | _ => false
  end.

Definition queries (tr : trace) : list event := filter is_query tr.

(** ** [operator<<(std::ostream&, const Prefixer&)] *)

(** [std::strlen] *)
Definition strlen (path : string) : N := N.of_nat (String.length path).

(** [path[i] == sep] *)
Definition is_sep_at (t : target) (path : string) (i : N) : bool :=
  match String.get (N.to_nat i) path with
  | Some c => Ascii.eqb c (path_sep t)
  | None => false
  end.

(** The [for] loop over [i], started with loop variable [i] and with
    [sep_idx] as it stands; [None] when [fuel] tests of the loop condition do
    not reach the exit. *)
Fixpoint sep_scan (fuel : nat) (t : target) (path : string) (i sep_idx : N)
  : option N :=
  match fuel with
  | O => None
  | S fuel' =>
      if i =? size_max t then Some sep_idx
      else if is_sep_at t path i then Some i
      else sep_scan fuel' t path (size_dec t i) sep_idx
  end.

(** The loop with [i = str_len - 1] and [sep_idx = max]: the value of
    [sep_idx] after it.  From [i] the loop variable reaches [max] after
    [(i + 1) mod 2^size_bits] decrements, which gives the fuel
    ([sep_scan_terminates]). *)
Definition last_sep_idx (t : target) (path : string) : N :=
  let str_len := strlen path in
  let i0 := size_dec t str_len in
  let fuel := S (N.to_nat ((i0 + 1) mod 2 ^ size_bits t)) in
  match sep_scan fuel t path i0 (size_max t) with
  | Some sep_idx => sep_idx
  | None => size_max t
  end.

(** [sep_idx == max ? path : path + sep_idx + 1] *)
Definition file_name (t : target) (path : string) : string :=
  let sep_idx := last_sep_idx t path in
  if sep_idx =? size_max t then path
  else Str.drop (N.to_nat (sep_idx + 1)) path.

(** The loop read structurally: the largest index below [n] at which the path
    holds the separator, if there is one. *)
Fixpoint last_sep_below (t : target) (path : string) (n : nat) : option nat :=
  match n with
  | O => None
  | S i =>
      if is_sep_at t path (N.of_nat i) then Some i
      else last_sep_below t path i
  end.

(** Two decimal digits, as [put_time] writes [%H], [%M] and [%S]. *)
Definition two_digits (n : N) : string :=
  if n <? 10 then "0" ++ dec_N n else dec_N n.

(** [std::put_time(local, "%H:%M:%S")] *)
Definition put_time (local : tm) : string :=
  two_digits (tm_hour local) ++ ":" ++ two_digits (tm_min local)
    ++ ":" ++ two_digits (tm_sec local).

Fixpoint fill (n : nat) (c : ascii) : string :=
  match n with
  | O => ""
  | S n' => String c (fill n' c)
  end.

(** [os << std::setfill(c) << std::setw(w) << text], right-adjusted. *)
Definition setw (w : nat) (c : ascii) (text : string) : string :=
  fill (w - String.length text) c ++ text.

(** [duration_cast<milliseconds>(now.time_since_epoch()) % 1000]; [%]
    truncates toward zero. *)
Definition ms_count (env : environment) : Z := Z.rem (now_ms env) 1000.

(** The stream being written and the local [cnt]. *)
Definition pstate : Type := (trace * N)%type.

Section PrefixerBlocks.

Variable t : target.
Variable c : config.
Variable env : environment.
Variable p : Prefixer.

Definition sep_if_prior (cnt : N) : trace :=
  if cnt =? 0 then [] else [Write ", "].

(* FILE *)
Definition block_FILE (st : pstate) : pstate :=
  let '(os, cnt) := st in
  if has (curPrefixes c) FILE
  then ((os ++ [Write (file_name t (get_file_path p))])%list, incr32 cnt)
  else st.

(* LINE *)
Definition block_LINE (st : pstate) : pstate :=
  let '(os, cnt) := st in
  if has (curPrefixes c) LINE
  then ((os ++ [Write (if cnt =? 0 then "Line: " else ":");
                Write (dec_Z (get_file_line_number p))])%list, incr32 cnt)
  else st.

(* FUNCTION *)
Definition block_FUNCTION (st : pstate) : pstate :=
  let '(os, cnt) := st in
  if has (curPrefixes c) FUNCTION
  then ((os ++ sep_if_prior cnt
            ++ [Write (get_function_name p); Write "()"])%list, incr32 cnt)
  else st.

(* TIME *)
Definition block_TIME (st : pstate) : pstate :=
  let '(os, cnt) := st in
  if has (curPrefixes c) TIME
  then
    let os := (os ++ [ClockNow; LocalTime])%list in
    match localtime env with
    | Some local =>
        ((os ++ sep_if_prior cnt
             ++ [Write (put_time local); Write ".";
                 Write (setw 3 "0"%char (dec_Z (ms_count env)))])%list,
         incr32 cnt)
    | None => (os, cnt)
    end
  else st.

(* THREAD *)
Definition block_THREAD (st : pstate) : pstate :=
  let '(os, cnt) := st in
  if has (curPrefixes c) THREAD
  then ((os ++ sep_if_prior cnt
            ++ [ThreadId; Write "TID: "; Write (thread_id env)])%list,
        incr32 cnt)
  else st.

(* Final separator, if any *)
Definition block_final (st : pstate) : pstate :=
  let '(os, cnt) := st in
  if cnt =? 0 then st else ((os ++ [Write ": "])%list, cnt).

(** The five blocks in program order, from [cnt = 0]. *)
Definition Prefixer_blocks : pstate :=
  block_THREAD (block_TIME (block_FUNCTION (block_LINE (block_FILE ([], 0))))).

(** The whole operator: what it does to the stream. *)
Definition Prefixer_out : trace := fst (block_final Prefixer_blocks).

(** The value of [cnt] when the operator returns. *)
Definition Prefixer_cnt : N := snd Prefixer_blocks.

End PrefixerBlocks.

(** ** Static types and their values *)

(** The class templates for which the header overloads [operator<<] on a
    [Stringifier], grouped by the member function the overload calls. *)
Inductive seq_kind : Type :=
| std_array (n : nat) | std_vector | std_deque | std_forward_list | std_list.

Inductive set_kind : Type :=
| std_set | std_multiset | std_unordered_set | std_unordered_multiset.

Inductive map_kind : Type :=
| std_map | std_multimap | std_unordered_map | std_unordered_multimap.

(** The static types [T] at which [Stringifier<T>] is instantiated.  [t_int]
    stands for the arithmetic types that the stream writes as a decimal
    integer, [t_other] for any further type with an [operator<<] of its own.
    [t_const u] is the const-qualified [u]; [const char*] is a type of its
    own, [t_const_char_ptr]. *)
Inductive ty : Type :=
| t_bool
| t_char
| t_signed_char
| t_unsigned_char
| t_char_ptr
| t_const_char_ptr
| t_string
| t_int
| t_other
| t_const (u : ty)
| t_seq (k : seq_kind) (u : ty)
| t_set (k : set_kind) (u : ty)
| t_map (k : map_kind) (u v : ty)
| t_stack (u : ty)
| t_queue (u : ty)
| t_priority_queue (u : ty).

(** Values.  A C string is the characters before its terminator.  A value of
    [t_other] is given by the text its own [operator<<] writes.  A container
    is the list of its elements in the order [begin()] to [end()] yields
    them; a container adaptor is its underlying sequence [c], so that
    [stack::top()] and [queue::back()] are the last element and
    [queue::front()] and [priority_queue::top()] the first. *)
Fixpoint val (t : ty) : Type :=
  match t with
  | t_bool => bool
  | t_char | t_signed_char | t_unsigned_char => ascii
  | t_char_ptr | t_const_char_ptr | t_string => string
  | t_int => Z
  | t_other => string
  | t_const u => val u
  | t_seq _ u | t_set _ u => list (val u)
  | t_map _ u v => list (val u * val v)
  | t_stack u | t_queue u | t_priority_queue u => list (val u)
  end.

(** ** Literal characters *)

Definition squote  : string := "'".
Definition dquote  : string := String "034"%char EmptyString.
Definition ESC     : string := String "027"%char EmptyString.
Definition newline : string := String "010"%char EmptyString.

(** [GL_NEWLINE], by default ['\n']; [std::endl] writes the same byte. *)
Definition GL_NEWLINE : string := newline.

(** ** [os << v] for the value itself *)

(** Whether the standard library or the type provides [os << v]: no
    container has such an operator. *)
Fixpoint insertable (t : ty) : bool :=
  match t with
  | t_bool | t_char | t_signed_char | t_unsigned_char
  | t_char_ptr | t_const_char_ptr | t_string | t_int | t_other => true
  | t_const u => insertable u
  | _ => false
  end.

(** What [os << v] writes in the default stream state; for a type that is
    not [insertable] there is no such expression. *)
Fixpoint insert (t : ty) : val t -> string :=
  match t return val t -> string with
  | t_bool => fun b => if b then "1" else "0"
  | t_char | t_signed_char | t_unsigned_char => fun ch => String ch EmptyString
  | t_char_ptr | t_const_char_ptr | t_string => fun s => s
  | t_int => fun z => dec_Z z
  | t_other => fun s => s
  | t_const u => insert u
  | _ => fun _ => EmptyString
  end.

(** ** [class Stringifier] *)

Module Stringifier.

Section Members.

Variables A B : Type.

(** The insertions of the elements after the first: [", " << stringify(x)]. *)
Definition rest (str : A -> string) (r : list A) : string :=
  Str.cat (List.map (fun x => ", " ++ str x) r).

(** [Stringifier<T>::sequence]; [str] inserts [stringify(x)]. *)
Definition sequence (str : A -> string) (m_t : list A) : string :=
  "{"
  ++ match m_t with
     | [] => EmptyString
     | x :: r => str x ++ rest str r
     end
  ++ "}".

(** [Stringifier<T>::map]; [strk] inserts [stringify(it->first)] and [strv]
    inserts [stringify(it->second)]. *)
Definition entry (strk : A -> string) (strv : B -> string) (e : A * B)
  : string := strk (fst e) ++ ": " ++ strv (snd e).

Definition map (strk : A -> string) (strv : B -> string)
  (m_t : list (A * B)) : string :=
  "{"
  ++ match m_t with
     | [] => EmptyString
     | e :: r =>
         entry strk strv e
         ++ Str.cat (List.map (fun e' => ", " ++ entry strk strv e') r)
     end
  ++ "}".

(** [front()] and [back()] of the underlying sequence. *)
Definition front (m_t : list A) : option A := List.hd_error m_t.
Definition back (m_t : list A) : option A := List.hd_error (List.rev m_t).

(** An accessor is only called on a container that is not empty. *)
Definition at_ (str : A -> string) (o : option A) : string :=
  match o with
  | Some x => str x
  | None => EmptyString
  end.

(** [m_t.size()] *)
Definition size (m_t : list A) : N := N.of_nat (List.length m_t).

(** [Stringifier<T>::stack]; [top] is [m_t.top()]. *)
Definition stack (str : A -> string) (top : list A -> option A)
  (m_t : list A) : string :=
  "{"
  ++ (if size m_t =? 1 then at_ str (top m_t)
      else if negb (size m_t =? 0) then at_ str (top m_t) ++ ", ..."
      else EmptyString)
  ++ "}".

(** [Stringifier<T>::queue] *)
Definition queue (str : A -> string) (m_t : list A) : string :=
  "{"
  ++ (if size m_t =? 1 then at_ str (front m_t)
      else if size m_t =? 2
           then at_ str (front m_t) ++ ", " ++ at_ str (back m_t)
      else if negb (size m_t =? 0)
           then at_ str (front m_t) ++ ", ..., " ++ at_ str (back m_t)
      else EmptyString)
  ++ "}".

End Members.

End Stringifier.

(** ** [os << stringify(v)]: overload resolution on [Stringifier<T>]

    [stringify(T& t)] deduces [T] from the lvalue it is given, const included,
    and the explicit specialisations and overloads of [operator<<] are all
    written for unqualified types.  So:
    - [T] one of [bool], the three character types, [char*], [const char*],
      [std::string], or a container: the specialisation or overload for it;
    - [T] any other type, and every [const U]: the primary template, which is
      [os << s.get_t()].

    Inside the member functions the static type of an element is what the
    accessor returns: [*it] of a sequence container, [it->second] of a map,
    [stack::top()], [queue::front()] and [queue::back()] are [U&]; [*it] of a
    set (whose iterators are constant), [it->first] of a map (whose
    [value_type] is [pair<const K, V>]) and [priority_queue::top()] (a
    [const_reference]) are [const U&]. *)
Fixpoint stringify (t : ty) : val t -> string :=
  match t return val t -> string with
  | t_bool => fun b => if b then "true" else "false"
  | t_char | t_signed_char | t_unsigned_char =>
      fun ch => squote ++ String ch EmptyString ++ squote
  | t_char_ptr | t_const_char_ptr | t_string =>
      fun s => dquote ++ s ++ dquote
  | t_int => insert t_int
  | t_other => insert t_other
  | t_const u => insert u
  | t_seq _ u => Stringifier.sequence (stringify u)
  | t_set _ u => Stringifier.sequence (insert u)
  | t_map _ u v => Stringifier.map (insert u) (stringify v)
  | t_stack u => Stringifier.stack (stringify u) (@Stringifier.back _)
  | t_queue u => Stringifier.queue (stringify u)
  | t_priority_queue u => Stringifier.stack (insert u) (@Stringifier.front _)
  end.

(** Whether [os << stringify(v)] is well-formed for an lvalue [v] of static
    type [t]: the primary template needs [os << v] itself, and
    [stringify(T&)] does not bind to a prvalue, which is what [*it] of a
    [std::vector<bool>] and [top()] of a [std::priority_queue<bool>] (a
    [std::vector<bool>] underneath) return. *)
Fixpoint stringifiable (t : ty) : bool :=
  match t with
  | t_bool | t_char | t_signed_char | t_unsigned_char
  | t_char_ptr | t_const_char_ptr | t_string | t_int | t_other => true
  | t_const u => insertable u
  | t_seq std_vector t_bool => false
  | t_seq _ u => stringifiable u
  | t_set _ u => insertable u
  | t_map _ u v => insertable u && stringifiable v
  | t_stack u | t_queue u => stringifiable u
  | t_priority_queue t_bool => false
  | t_priority_queue u => insertable u
  end.

(** A type without const qualification at its top: the element type of a
    container adaptor is one, its underlying container allocates its
    elements. *)
Definition unqualified (t : ty) : bool :=
  match t with
  | t_const _ => false
  | _ => true
  end.

(** ** Outcomes of a logging statement *)

(** A statement either runs and leaves a trace, or is rejected when the
    program is built, or reads storage outside what it was given. *)
Inductive outcome (A : Type) : Type :=
| Done (a : A)
| IllFormed
| Undefined.

Arguments IllFormed {A}.
Arguments Undefined {A}.

Definition bind {A B : Type} (m : outcome A) (f : A -> outcome B) : outcome B :=
  match m with
  | Done a => f a
  | IllFormed => IllFormed
  | Undefined => Undefined
  end.

Notation "x <- m ;; k" := (bind m (fun x => k))
  (at level 61, m at next level, right associativity).

(** The bytes a statement sends to the sink, when it runs. *)
Definition output (o : outcome trace) : option string :=
  match o with
  | Done tr => Some (written tr)
  | _ => None
  end.

(** A [for] loop whose body inserts into the stream, over the values the loop
    variable takes. *)
Fixpoint for_each {I : Type} (idx : list I) (body : I -> outcome trace)
  : outcome trace :=
  match idx with
  | [] => Done []
  | i :: r =>
      a <- body i ;;
      b <- for_each r body ;;
      Done (a ++ b)%list
  end.

(** The values of [i] in [for (size_t i = lo; i < hi; ++i)]. *)
Definition range (lo hi : N) : list N :=
  List.map N.of_nat (List.seq (N.to_nat lo) (N.to_nat hi - N.to_nat lo)).

(** ** Stream manipulators of [namespace internal] *)

Definition color_start (c : config) : trace :=
  if colorEnabled c then [Write (ESC ++ "[0;31m")] else [].

Definition color_end (c : config) : trace :=
  if colorEnabled c then [Write (ESC ++ "[0m")] else [].

Definition type_name (c : config) : trace :=
  if has (curPrefixes c) TYPE_NAME then [Write "type "] else [].

(** ** The call site: [__FILE__], [__LINE__], [__func__] *)

Record call_site : Type := CallSite {
  site_file : string;
  site_line : Z;
  site_func : string
}.

(** [gl::internal::Prefixer(__FILE__, __LINE__, __func__)] *)
Definition Prefixer_at (s : call_site) : Prefixer :=
  MkPrefixer (site_file s) (site_line s) (site_func s).

(** ** The macro [l] *)

(** An argument of [l]: the text [#v] and the value of [(v)] at its static
    type.  [(v)] designates an object: [stringify(T&)] takes it by reference,
    so an argument that is a prvalue, such as [i + 1], is rejected when the
    program is built and is no [arg]. *)
Record arg : Type := Arg {
  arg_text : string;
  arg_ty   : ty;
  arg_val  : val arg_ty
}.

(** The operands of the [<<] chain a macro expands to. *)
Inductive operand : Type :=
| op_type_name               (* gl::internal::type_name *)
| op_text (s : string)       (* (#v) *)
| op_lit (s : string)        (* a string literal written in the macro *)
| op_stringify (a : arg).    (* gl::internal::stringify((v)) *)

Definition chain : Type := list operand.
Bind Scope list_scope with chain.

Definition GL_INTERNAL_LX (v : arg) : chain :=
  [op_type_name; op_text (arg_text v); op_lit " = "; op_stringify v].

(** [vs] without its last element, and that element. *)
Fixpoint unsnoc {A : Type} (vs : list A) : option (list A * A) :=
  match vs with
  | [] => None
  | x :: r =>
      match unsnoc r with
      | None => Some ([], x)
      | Some (init, z) => Some (x :: init, z)
      end
  end.

(** [GL_INTERNAL_Ln(v1, ..., vn)]: [GL_INTERNAL_L1] is [GL_INTERNAL_LX], and
    each further macro is the one before it on [v1 .. v(n-1)], then [", "],
    then [GL_INTERNAL_LX(vn)].  [None]: the macro does not exist or is invoked
    with another number of arguments. *)
Fixpoint GL_INTERNAL_L (n : nat) (vs : list arg) : option chain :=
  match n with
  | O => None
  | S n' =>
      match n' with
      | O =>
          match vs with
          | [v1] => Some (GL_INTERNAL_LX v1)
          | _ => None
          end
      | S _ =>
          match unsnoc vs with
          | Some (init, vn) =>
              match GL_INTERNAL_L n' init with
              | Some ch => Some (ch ++ [op_lit ", "] ++ GL_INTERNAL_LX vn)%list
              | None => None
              end
          | None => None
          end
      end
  end.

(** The arguments handed to [GL_INTERNAL_L_DISPATCH]: what the user wrote,
    then the sixteen macro names, then an empty argument. *)
Inductive macro_arg : Type :=
| user_arg (a : arg)
| macro_name (n : nat)       (* GL_INTERNAL_Ln *)
| empty_arg.

Definition l_names : list macro_arg :=
  (List.map macro_name [16; 15; 14; 13; 12; 11; 10; 9; 8; 7; 6; 5; 4; 3; 2; 1]
   ++ [empty_arg])%nat%list.

(** [__VA_ARGS__] as macro arguments: no token at all is one empty
    argument. *)
Definition va_args (vs : list arg) : list macro_arg :=
  match vs with
  | [] => [empty_arg]
  | _ => List.map user_arg vs
  end.

(** [GL_INTERNAL_L_DISPATCH(_1, ..., _16, NAME, ...)] expands to [NAME]. *)
Definition GL_INTERNAL_L_DISPATCH (params : list macro_arg) : option macro_arg :=
  List.nth_error params 16.

(** The body chain of [l(...)]: the dispatched macro applied to
    [__VA_ARGS__].  With no argument the dispatch names [GL_INTERNAL_L1],
    whose expansion [stringify(())] is not an expression. *)
Definition l_body (vs : list arg) : option chain :=
  match GL_INTERNAL_L_DISPATCH (va_args vs ++ l_names) with
  | Some (macro_name n) => GL_INTERNAL_L n vs
  | _ => None
  end.

(** Insertion of one operand. *)
Definition insert_operand (c : config) (o : operand) : trace :=
  match o with
  | op_type_name => type_name c
  | op_text s => [Write s]
  | op_lit s => [Write s]
  | op_stringify a => [Write (stringify (arg_ty a) (arg_val a))]
  end.

Definition insert_chain (c : config) (ch : chain) : trace :=
  List.concat (List.map (insert_operand c) ch).

(** The [", "] literals of a chain: the separators at the top level, as
    distinct from any [", "] inside an expression text or a formatted
    value. *)
Definition is_separator (o : operand) : bool :=
  match o with
  | op_lit s => String.eqb s ", "
  | _ => false
  end.

Definition separators (ch : chain) : nat :=
  List.length (List.filter is_separator ch).

(** The statement [l(...)].  The whole chain, the construction of the
    [Prefixer] temporary included, is under [if (outputEnabled)].  Within the
    chain the temporary is constructed before it is inserted; it is placed
    here in front of the first insertion. *)
Definition l (t : target) (c : config) (env : environment) (s : call_site)
  (vs : list arg) : outcome trace :=
  match l_body vs with
  | Some ch =>
      if forallb (fun v => stringifiable (arg_ty v)) vs
      then
        Done (if outputEnabled c
              then [Construct (Prefixer_at s)]
                   ++ color_start c
                   ++ Prefixer_out t c env (Prefixer_at s)
                   ++ insert_chain c ch
                   ++ color_end c
                   ++ [Write GL_NEWLINE]
              else [])%list
      else IllFormed
  | None => IllFormed
  end.

(** ** [class Array] and the macro [l_arr] *)

(** [m_val] is the storage [v] designates, as the list of its elements of
    static type [arr_elem]; [m_len] is the [len] the caller states. *)
Record Array : Type := MkArray {
  arr_name     : string;
  arr_elem     : ty;
  arr_val      : list (val arr_elem);
  arr_len      : N;
  arr_prefixer : Prefixer
}.

(** [make_array] *)
Definition make_array (name : string) (u : ty) (v : list (val u)) (len : N)
  (prefixer : Prefixer) : Array := MkArray name u v len prefixer.

(** [stringify(a.get_values()[i])]: reading past the storage is undefined. *)
Definition Array_at (a : Array) (i : N) : outcome string :=
  match List.nth_error (arr_val a) (N.to_nat i) with
  | Some x => Done (stringify (arr_elem a) x)
  | None => Undefined
  end.

(** [operator<<(std::ostream&, const Array<U>&)] *)
Definition Array_out (t : target) (c : config) (env : environment) (a : Array)
  : outcome trace :=
  if outputEnabled c
  then
    first <- (if 0 <? arr_len a
              then x <- Array_at a 0 ;; Done [Write x]
              else Done []) ;;
    others <- for_each (range 1 (arr_len a))
                (fun i => x <- Array_at a i ;; Done [Write ", "; Write x]) ;;
    Done (color_start c
          ++ Prefixer_out t c env (arr_prefixer a)
          ++ type_name c
          ++ [Write (arr_name a); Write " = {"]
          ++ first ++ others
          ++ [Write "}"]
          ++ color_end c
          ++ [Write GL_NEWLINE])%list
  else Done [].

(** The statement [l_arr(v, len)]: the [Prefixer] temporary is an argument of
    [make_array], so it is constructed before the operator tests
    [outputEnabled]. *)
Definition l_arr (t : target) (c : config) (env : environment) (s : call_site)
  (name : string) (u : ty) (v : list (val u)) (len : N) : outcome trace :=
  if stringifiable u
  then
    tr <- Array_out t c env (make_array name u v len (Prefixer_at s)) ;;
    Done (Construct (Prefixer_at s) :: tr)
  else IllFormed.

(** ** [class Matrix] and the macro [l_mat] *)

(** [m_val] is the storage [m] designates, as the list of its rows. *)
Record Matrix : Type := MkMatrix {
  mat_name     : string;
  mat_elem     : ty;
  mat_val      : list (list (val mat_elem));
  mat_cols     : N;
  mat_rows     : N;
  mat_prefixer : Prefixer
}.

(** [make_matrix] *)
Definition make_matrix (name : string) (u : ty) (v : list (list (val u)))
  (cols rows : N) (prefixer : Prefixer) : Matrix :=
  MkMatrix name u v cols rows prefixer.

(** [stringify(m.get_values()[i][j])] *)
Definition Matrix_at (m : Matrix) (i j : N) : outcome string :=
  match List.nth_error (mat_val m) (N.to_nat i) with
  | Some row =>
      match List.nth_error row (N.to_nat j) with
      | Some x => Done (stringify (mat_elem m) x)
      | None => Undefined
      end
  | None => Undefined
  end.

(** The insertions of the first loop, for column [j] of row 0. *)
Definition Matrix_first_row_entry (m : Matrix) (j : N) : outcome trace :=
  x <- Matrix_at m 0 j ;;
  Done [Write ", "; Write "[0,"; Write (dec_N j); Write "] = "; Write x].

(** The insertions of the inner loop of the second nest. *)
Definition Matrix_entry (m : Matrix) (i j : N) : outcome trace :=
  x <- Matrix_at m i j ;;
  Done [Write ", "; Write "["; Write (dec_N i); Write ","; Write (dec_N j);
        Write "] = "; Write x].

(** What follows [": "]. *)
Definition Matrix_body (m : Matrix) : outcome trace :=
  if (mat_cols m <=? 0) || (mat_rows m <=? 0)
  then Done [Write "{}"]
  else
    x00 <- Matrix_at m 0 0 ;;
    row0 <- for_each (range 1 (mat_cols m)) (Matrix_first_row_entry m) ;;
    others <- for_each (range 1 (mat_rows m))
                (fun i => for_each (range 0 (mat_cols m)) (Matrix_entry m i)) ;;
    Done ([Write "[0,0] = "; Write x00] ++ row0 ++ others)%list.

(** [operator<<(std::ostream&, const Matrix<U>&)] *)
Definition Matrix_out (t : target) (c : config) (env : environment)
  (m : Matrix) : outcome trace :=
  if outputEnabled c
  then
    body <- Matrix_body m ;;
    Done (color_start c
          ++ Prefixer_out t c env (mat_prefixer m)
          ++ type_name c
          ++ [Write (mat_name m); Write ": "]
          ++ body
          ++ color_end c
          ++ [Write GL_NEWLINE])%list
  else Done [].

(** The statement [l_mat(m, cols, rows)]. *)
Definition l_mat (t : target) (c : config) (env : environment) (s : call_site)
  (name : string) (u : ty) (v : list (list (val u))) (cols rows : N)
  : outcome trace :=
  if stringifiable u
  then
    tr <- Matrix_out t c env (make_matrix name u v cols rows (Prefixer_at s)) ;;
    Done (Construct (Prefixer_at s) :: tr)
  else IllFormed.

(** The static types at which overload resolution selects the primary
    template of [operator<<] on a [Stringifier]: every const-qualified type,
    and the types for which the header has no specialisation. *)
Definition primary (t : ty) : bool :=
  match t with
  | t_int | t_other | t_const _ => true
  | _ => false
  end.

(** * The test programs

    The loop of [test/src/prefixes.cpp] over the prefix masks and the driver
    [test/src/run_all.cpp]. *)

(** ** [test/src/prefixes.cpp] *)

Module PrefixesTest.

(** The macro [PERM(n, p)]: [for (n = NONE; n <= p; n = n + p)] on the
    [uint32_t] values.  The values of [n] for which the body runs, from the
    value [n] on; [None] when [fuel] tests of the condition do not reach the
    exit. *)
Fixpoint PERM (fuel : nat) (p n : prefix) : option (list prefix) :=
  match fuel with
  | O => None
  | S fuel' =>
      if n <=? p
      then match PERM fuel' p ((n + p) mod 2 ^ 32) with
           | Some r => Some (n :: r)
           | None => None
           end
      else Some []
  end.

(** The values a loop variable of the test takes. *)
Definition values (p : prefix) : list prefix :=
  match PERM 3 p NONE with
  | Some r => r
  | None => []
  end.

(** The masks [fi | l | fu | ti | th | tn] in the order in which the six
    nested loops reach the body. *)
Definition masks : list prefix :=
  List.flat_map (fun fi =>
  List.flat_map (fun l_ =>
  List.flat_map (fun fu =>
  List.flat_map (fun ti =>
  List.flat_map (fun th =>
  List.map (fun tn => fi .| l_ .| fu .| ti .| th .| tn)
    (values TYPE_NAME)) (values THREAD)) (values TIME)) (values FUNCTION))
    (values LINE)) (values FILE).

(** The state of [main] in the loops: the configuration and the statements
    run so far. *)
Definition state : Type := (config * list (outcome trace))%type.

(** The body of the innermost loop, in a translation unit named [file]:
    [None] when it returns [EXIT_FAILURE]. *)
Definition body (t : target) (env : environment) (file : string)
  (p : prefix) (st : state) : option state :=
  let c := set_prefixes p (fst st) in
  if negb (p =? get_prefixes c) then None
  else
    Some (c,
          snd st
          ++ [l t c env (CallSite file 39 "main") [Arg "i" t_int 0%Z];
              l_arr t c env (CallSite file 40 "main") "a" t_int [0%Z] 1;
              l_mat t c env (CallSite file 41 "main") "m" t_int [[0%Z]] 1 1])%list.

(** The loops over the masks [ps], left at the first failure. *)
Fixpoint run (t : target) (env : environment) (file : string)
  (ps : list prefix) (st : state) : option state :=
  match ps with
  | [] => Some st
  | p :: r =>
      match body t env file p st with
      | Some st' => run t env file r st'
      | None => None
      end
  end.

End PrefixesTest.

(** A statement that is well formed and stays inside its storage. *)
Definition is_done (o : outcome trace) : bool :=
  match o with
  | Done _ => true
  | _ => false
  end.

(** ** [test/src/run_all.cpp] *)

Module RunAll.

Definition EXIT_SUCCESS : Z := 0.
Definition EXIT_FAILURE : Z := 1.

(** What the program asks of the host: [opendir] followed by [readdir] to the
    end ([None] when the directory cannot be opened), and [std::system]. *)
Record host : Type := Host {
  readdir : string -> option (list string);
  system : string -> Z
}.

(** What the program does, in order: text inserted into [std::cout] and
    commands passed to [std::system]. *)
Inductive event : Type :=
| Print (s : string)
| Exec (cmd : string).

Inductive result : Type :=
| Return (code : Z)
| Throw (what : string).

(** [get_file_names(d)]. *)
Definition get_file_names (h : host) (d : string) : string + list string :=
  match readdir h d with
  | Some names => inr names
  | None => inl ("Failed to open directory '" ++ d ++ "'")
  end.

(** [s.find_last_of(c)]; [None] is [npos]. *)
Fixpoint find_last_of (c : ascii) (s : string) : option nat :=
  match s with
  | "" => None
  | String x r =>
      match find_last_of c r with
      | Some i => Some (S i)
      | None => if Ascii.eqb x c then Some O else None
      end
  end.

(** The directory and the file of [path], lines 50 to 59. *)
Definition split (t : target) (path : string) : string * string :=
  match find_last_of (path_sep t) path with
  | None => ("", path)
  | Some idx => (String.substring 0 idx path, Str.drop (idx + 1) path)
  end.

(** [f != "." && f != ".." && f != file]. *)
Definition runs (file f : string) : bool :=
  negb (String.eqb f ".") && negb (String.eqb f "..")
  && negb (String.eqb f file).

(** [dir + sep + f]. *)
Definition command (t : target) (dir f : string) : string :=
  dir ++ String (path_sep t) f.

(** The loop over the directory entries, lines 63 to 75. *)
Fixpoint loop (h : host) (t : target) (dir file : string)
  (files : list string) : list event * Z :=
  match files with
  | [] => ([], EXIT_SUCCESS)
  | f :: r =>
      if runs file f then
        let rv := system h (command t dir f) in
        if (rv =? -1)%Z then
          ([Exec (command t dir f);
            Print ("Failed to execute binary " ++ f ++ newline)],
           EXIT_FAILURE)
        else if negb (rv =? EXIT_SUCCESS)%Z then
          ([Exec (command t dir f)], EXIT_FAILURE)
        else
          let (ev, code) := loop h t dir file r in
          (Exec (command t dir f) :: ev, code)
      else loop h t dir file r
  end.

(** [main], called with [argv[0] = argv0] and the further arguments
    [args]. *)
Definition main (h : host) (t : target) (argv0 : string)
  (args : list string) : list event * result :=
  if negb (Nat.eqb (1 + List.length args) 1) then
    ([Print ("Usage: " ++ argv0 ++ newline)], Return EXIT_SUCCESS)
  else
    let (dir, file) := split t argv0 in
    match get_file_names h dir with
    | inl what => ([], Throw what)
    | inr files =>
        let (ev, code) := loop h t dir file files in (ev, Return code)
    end.

(** The commands among the events. *)
Fixpoint executed (ev : list event) : list string :=
  match ev with
  | [] => []
  | Exec cmd :: r => cmd :: executed r
  | Print _ :: r => executed r
  end.

(** The text among the events. *)
Fixpoint printed (ev : list event) : string :=
  match ev with
  | [] => ""
  | Print s :: r => s ++ printed r
  | Exec _ :: r => printed r
  end.

End RunAll.

(** * The specification's wording

    Definitions written from the specification, to be compared with the
    embedding above. *)

Module Spec.

(** The five decorations of a record, in their fixed order. *)
Inductive field : Type :=
| FILE_field | LINE_field | FUNCTION_field | TIME_field | THREAD_field.

Definition all_fields : list field :=
  [FILE_field; LINE_field; FUNCTION_field; TIME_field; THREAD_field].

Definition flag (f : field) : prefix :=
  match f with
  | FILE_field => FILE
  | LINE_field => LINE
  | FUNCTION_field => FUNCTION
  | TIME_field => TIME
  | THREAD_field => THREAD
  end.

Definition is_FILE (f : field) : bool :=
  match f with FILE_field => true | _ => false end.

Definition is_TIME (f : field) : bool :=
  match f with TIME_field => true | _ => false end.

(** The fields whose flags are in the mask [m]. *)
Definition fields_in (m : prefix) : list field :=
  filter (fun f => has m (flag f)) all_fields.

(** The fields whose flags are in [m], TIME left out when the local time is
    not available. *)
Definition fields_produced (m : prefix) (env : environment) : list field :=
  filter (fun f => has m (flag f)
                   && (negb (is_TIME f)
                       || match localtime env with Some _ => true | None => false end))
         all_fields.

Section Decoration.

Variable t : target.
Variable env : environment.
Variable p : Prefixer.

(** What a field shows. *)
Definition field_text (f : field) : string :=
  match f with
  | FILE_field => file_name t (get_file_path p)
  | LINE_field => dec_Z (get_file_line_number p)
  | FUNCTION_field => get_function_name p ++ "()"
  | TIME_field =>
      match localtime env with
      | Some local =>
          put_time local ++ "." ++ setw 3 "0"%char (dec_Z (ms_count env))
      | None => ""
      end
  | THREAD_field => "TID: " ++ thread_id env
  end.

(** What precedes a field, given the fields already emitted. *)
Definition lead (prior : list field) (f : field) : string :=
  match f with
  | FILE_field => ""
  | LINE_field => if existsb is_FILE prior then ":" else "Line: "
  | _ => match prior with [] => "" | _ :: _ => ", " end
  end.

Fixpoint fields_text (prior fs : list field) : string :=
  match fs with
  | [] => ""
  | f :: r => lead prior f ++ field_text f ++ fields_text (prior ++ [f]) r
  end.

(** The decoration showing the fields [fs]: the fields, then [": "] iff
    there is at least one. *)
Definition decoration (fs : list field) : string :=
  match fs with
  | [] => ""
  | _ :: _ => fields_text [] fs ++ ": "
  end.

End Decoration.

(** The canonical form of a value, by formatting category; the category of a
    type does not depend on const qualification. *)
Fixpoint canonical (t : ty) : val t -> string :=
  match t return val t -> string with
  | t_bool => fun b => if b then "true" else "false"
  | t_char | t_signed_char | t_unsigned_char =>
      fun ch => squote ++ String ch EmptyString ++ squote
  | t_char_ptr | t_const_char_ptr | t_string => fun s => dquote ++ s ++ dquote
  | t_int => fun z => dec_Z z
  | t_other => fun s => s
  | t_const u => canonical u
  | t_seq _ u =>
      fun c => "{" ++ String.concat ", " (List.map (canonical u) c) ++ "}"
  | t_set _ u =>
      fun c => "{" ++ String.concat ", " (List.map (canonical u) c) ++ "}"
  | t_map _ u v =>
      fun c =>
        "{" ++ String.concat ", "
                 (List.map (fun e => canonical u (fst e) ++ ": "
                                     ++ canonical v (snd e)) c)
            ++ "}"
  | t_stack u =>
      fun c =>
        match List.rev c with
        | [] => "{}"
        | [top] => "{" ++ canonical u top ++ "}"
        | top :: _ :: _ => "{" ++ canonical u top ++ ", ...}"
        end
  | t_queue u =>
      fun c =>
        match c, List.rev c with
        | [front], _ => "{" ++ canonical u front ++ "}"
        | [front; back], _ =>
            "{" ++ canonical u front ++ ", " ++ canonical u back ++ "}"
        | front :: _, back :: _ =>
            "{" ++ canonical u front ++ ", ..., " ++ canonical u back ++ "}"
        | _, _ => "{}"
        end
  | t_priority_queue u =>
      fun c =>
        match c with
        | [] => "{}"
        | [top] => "{" ++ canonical u top ++ "}"
        | top :: _ :: _ => "{" ++ canonical u top ++ ", ...}"
        end
  end.

(** The types whose own [os << v] is their canonical form: the fallback
    category. *)
Fixpoint fallback (t : ty) : bool :=
  match t with
  | t_int | t_other => true
  | t_const u => fallback u
  | _ => false
  end.

(** The types at which every const-qualified element the dispatch meets is
    of the fallback category. *)
Fixpoint const_safe (t : ty) : bool :=
  match t with
  | t_bool | t_char | t_signed_char | t_unsigned_char
  | t_char_ptr | t_const_char_ptr | t_string | t_int | t_other => true
  | t_const u => fallback u
  | t_seq _ u => const_safe u
  | t_set _ u => fallback u
  | t_map _ u v => fallback u && const_safe v
  | t_stack u | t_queue u => const_safe u
  | t_priority_queue u => fallback u
  end.

(** One pair of a scalar list. *)
Definition pair_text (c : config) (v : arg) : string :=
  (if has (curPrefixes c) TYPE_NAME then "type " else "")
  ++ arg_text v ++ " = " ++ stringify (arg_ty v) (arg_val v).

(** The index pairs of a [rows] by [cols] matrix in row-major order. *)
Definition row_major (rows cols : N) : list (N * N) :=
  List.flat_map (fun i => List.map (fun j => (i, j)) (range 0 cols))
                (range 0 rows).

(** The element at row [i], column [j] of the storage. *)
Definition cell (u : ty) (v : list (list (val u))) (i j : N) : option (val u) :=
  match List.nth_error v (N.to_nat i) with
  | Some row => List.nth_error row (N.to_nat j)
  | None => None
  end.

(** The storage has the [rows] by [cols] elements the caller states. *)
Definition in_bounds (u : ty) (v : list (list (val u))) (cols rows : N) : bool :=
  forallb (fun ij => match cell u v (fst ij) (snd ij) with
                     | Some _ => true
                     | None => false
                     end)
          (row_major rows cols).

(** One entry of a matrix body: ["[i,j] = v"]. *)
Definition entry_text (u : ty) (v : list (list (val u))) (ij : N * N) : string :=
  "[" ++ dec_N (fst ij) ++ "," ++ dec_N (snd ij) ++ "] = "
  ++ match cell u v (fst ij) (snd ij) with
     | Some x => stringify u x
     | None => ""
     end.

(** The body of a matrix record. *)
Definition matrix_body (u : ty) (v : list (list (val u))) (cols rows : N)
  : string :=
  if (cols =? 0) || (rows =? 0) then "{}"
  else String.concat ", " (List.map (entry_text u v) (row_major rows cols)).

End Spec.

(** * Properties *)

(** ** Strings and traces *)

Module StrFacts.

Lemma app_nil_r (s : string) : s ++ "" = s.
Proof. induction s as [|c s IH]; simpl; [reflexivity | now rewrite IH]. Qed.

Lemma app_assoc (a b c : string) : (a ++ b) ++ c = a ++ (b ++ c).
Proof. induction a as [|x a IH]; simpl; [reflexivity | now rewrite IH]. Qed.

Lemma app_length (a b : string) :
  String.length (a ++ b) = (String.length a + String.length b)%nat.
Proof. induction a as [|x a IH]; simpl; [reflexivity | now rewrite IH]. Qed.

Lemma cat_app (l1 l2 : list string) :
  Str.cat (l1 ++ l2) = Str.cat l1 ++ Str.cat l2.
Proof.
  induction l1 as [|x l1 IH]; simpl; [reflexivity|].
  now rewrite IH, app_assoc.
Qed.

(** Joining with a separator: the first item bare, every further item behind
    the separator. *)
Lemma concat_cons (sep x : string) (r : list string) :
  String.concat sep (x :: r) = x ++ Str.cat (List.map (fun y => sep ++ y) r).
Proof.
  revert x; induction r as [|y r IH]; intros x.
  - simpl. now rewrite app_nil_r.
  - change (String.concat sep (x :: y :: r))
      with (x ++ sep ++ String.concat sep (y :: r)).
    rewrite IH. simpl. now rewrite app_assoc.
Qed.

(** Joining a list that ends in [x]. *)
Lemma concat_snoc (sep x y : string) (r : list string) :
  String.concat sep ((y :: r) ++ [x])%list
  = String.concat sep (y :: r) ++ sep ++ x.
Proof.
  change ((y :: r) ++ [x])%list with (y :: (r ++ [x]))%list.
  rewrite !concat_cons, List.map_app, cat_app. simpl.
  now rewrite app_nil_r, app_assoc.
Qed.

Lemma not_ends_with_empty (c : ascii) (suf : string) :
  ~ Str.ends_with "" (String c suf).
Proof.
  intros [pre H]. destruct pre; discriminate H.
Qed.

End StrFacts.

Lemma written_app (a b : trace) : written (a ++ b) = written a ++ written b.
Proof.
  induction a as [|e a IH]; simpl; [reflexivity|].
  destruct e; simpl; try exact IH.
  now rewrite IH, StrFacts.app_assoc.
Qed.

Lemma constructed_app (a b : trace) :
  constructed (a ++ b) = (constructed a ++ constructed b)%list.
Proof.
  induction a as [|e a IH]; simpl; [reflexivity|].
  destruct e; simpl; try exact IH. now rewrite IH.
Qed.

(** ** The prefix mask *)

(** The bitwise operations keep 32-bit values within 32 bits, so the casts of
    the three operators change nothing. *)
Lemma prefix_ops_in_range (m1 m2 : prefix) :
  m1 < 2 ^ 32 -> m2 < 2 ^ 32 ->
  m1 .& m2 < 2 ^ 32 /\ m1 .| m2 < 2 ^ 32 /\ m1 .^ m2 < 2 ^ 32.
Proof.
  intros H1 H2.
  assert (bound : forall a, a < 2 ^ 32 <-> (forall n, 32 <= n -> N.testbit a n = false)).
  { intros a. split.
    - intros Ha n Hn. destruct (N.eq_dec a 0) as [->|Hz]; [apply N.bits_0|].
      apply N.bits_above_log2. apply N.log2_lt_pow2 in Ha; lia.
    - intros Ha. destruct (N.eq_dec a 0) as [->|Hz]; [reflexivity|].
      apply N.log2_lt_pow2; [lia|].
      destruct (N.lt_ge_cases (N.log2 a) 32) as [Hlt|Hge]; [exact Hlt|].
      specialize (Ha _ Hge). rewrite N.bit_log2 in Ha by exact Hz. discriminate. }
  unfold prefix_and, prefix_or, prefix_xor.
  rewrite bound in H1, H2.
  repeat split; apply bound; intros n Hn;
    rewrite ?N.land_spec, ?N.lor_spec, ?N.lxor_spec, H1, H2 by exact Hn;
    reflexivity.
Qed.

(** A flag test reads one bit of the mask. *)
Lemma has_testbit (m : prefix) (k : N) : has m (N.shiftl 1 k) = N.testbit m k.
Proof.
  unfold has, prefix_and, NONE.
  rewrite N.shiftl_1_l.
  destruct (N.testbit m k) eqn:Hb.
  - apply negb_true_iff, N.eqb_neq. intros H0.
    assert (Hk : N.testbit (N.land m (2 ^ k)) k = false) by (rewrite H0; apply N.bits_0).
    rewrite N.land_spec, Hb, N.pow2_bits_true in Hk. discriminate.
  - apply negb_false_iff, N.eqb_eq. apply N.bits_inj. intros n.
    rewrite N.land_spec, N.bits_0, N.pow2_bits_eqb.
    destruct (N.eqb_spec k n) as [->|_]; [now rewrite Hb | apply andb_false_r].
Qed.

(** C7. For all prefix masks [m], [m1], [m2]: [set_prefixes(m1)] followed by
    [get_prefixes()] returns exactly [m1]; union is idempotent; union,
    intersection and symmetric difference are commutative; and the symmetric
    difference of a mask with itself is [NONE]. *)
Theorem prefix_mask_laws (c : config) (m m1 m2 : prefix) :
  get_prefixes (set_prefixes m1 c) = m1
  /\ m .| m = m
  /\ m1 .| m2 = m2 .| m1
  /\ m1 .& m2 = m2 .& m1
  /\ m1 .^ m2 = m2 .^ m1
  /\ m .^ m = NONE.
Proof.
  unfold prefix_or, prefix_and, prefix_xor, NONE.
  repeat split.
  - apply N.lor_diag.
  - apply N.lor_comm.
  - apply N.land_comm.
  - apply N.lxor_comm.
  - apply N.lxor_nilpotent.
Qed.

(** ** The formatter *)

Section MemberFacts.

Variables A B : Type.
Variable str : A -> string.

Lemma sequence_join (c : list A) :
  Stringifier.sequence str c
  = "{" ++ String.concat ", " (List.map str c) ++ "}".
Proof.
  unfold Stringifier.sequence, Stringifier.rest.
  destruct c as [|x r]; [reflexivity|].
  change (List.map str (x :: r)) with (str x :: List.map str r).
  now rewrite StrFacts.concat_cons, List.map_map.
Qed.

Lemma map_join (strv : B -> string) (c : list (A * B)) :
  Stringifier.map str strv c
  = "{" ++ String.concat ", " (List.map (Stringifier.entry str strv) c) ++ "}".
Proof.
  unfold Stringifier.map.
  destruct c as [|x r]; [reflexivity|].
  change (List.map (Stringifier.entry str strv) (x :: r))
    with (Stringifier.entry str strv x
          :: List.map (Stringifier.entry str strv) r).
  now rewrite StrFacts.concat_cons, List.map_map.
Qed.

Lemma size_nil : Stringifier.size (@nil A) = 0.
Proof. reflexivity. Qed.

Lemma size_cons (x : A) (r : list A) :
  Stringifier.size (x :: r) = N.succ (Stringifier.size r).
Proof. unfold Stringifier.size. simpl List.length. apply Nat2N.inj_succ. Qed.

Lemma size_app (a b : list A) :
  Stringifier.size (a ++ b) = Stringifier.size a + Stringifier.size b.
Proof. unfold Stringifier.size. rewrite List.length_app. apply Nat2N.inj_add. Qed.

Lemma back_snoc (a : list A) (x : A) : Stringifier.back (a ++ [x]) = Some x.
Proof. unfold Stringifier.back. now rewrite List.rev_app_distr. Qed.

(** [stack] by the number of elements: none, one, more. *)
Lemma stack_cases (top : list A -> option A) (c : list A) :
  Stringifier.stack str top c
  = match c with
    | [] => "{}"
    | [_] => "{" ++ Stringifier.at_ str (top c) ++ "}"
    | _ :: _ :: _ => "{" ++ (Stringifier.at_ str (top c) ++ ", ...") ++ "}"
    end.
Proof.
  unfold Stringifier.stack.
  destruct c as [|x [|y r]]; [reflexivity | reflexivity |].
  rewrite !size_cons.
  destruct (N.eqb_spec (N.succ (N.succ (Stringifier.size r))) 1); [lia|].
  destruct (N.eqb_spec (N.succ (N.succ (Stringifier.size r))) 0); [lia|].
  reflexivity.
Qed.

(** [queue] by the number of elements: none, one, two, more. *)
Lemma queue_cases (c : list A) :
  Stringifier.queue str c
  = match c with
    | [] => "{}"
    | [x] => "{" ++ str x ++ "}"
    | [x; _] => "{" ++ (str x ++ ", " ++ Stringifier.at_ str (Stringifier.back c)) ++ "}"
    | x :: _ :: _ :: _ =>
        "{" ++ (str x ++ ", ..., " ++ Stringifier.at_ str (Stringifier.back c)) ++ "}"
    end.
Proof.
  unfold Stringifier.queue.
  destruct c as [|x [|y [|z r]]]; [reflexivity | reflexivity | reflexivity |].
  rewrite !size_cons.
  destruct (N.eqb_spec (N.succ (N.succ (N.succ (Stringifier.size r)))) 1); [lia|].
  destruct (N.eqb_spec (N.succ (N.succ (N.succ (Stringifier.size r)))) 2); [lia|].
  destruct (N.eqb_spec (N.succ (N.succ (N.succ (Stringifier.size r)))) 0); [lia|].
  reflexivity.
Qed.

End MemberFacts.

(** Dispatch on a const-qualified type is the primary template. *)
Lemma stringify_const (u : ty) (x : val u) : stringify (t_const u) x = insert u x.
Proof. reflexivity. Qed.

(** A sequence container is the join of its elements, each formatted at the
    element type. *)
Lemma stringify_seq (k : seq_kind) (u : ty) (c : list (val u)) :
  stringify (t_seq k u) c
  = "{" ++ String.concat ", " (List.map (stringify u) c) ++ "}".
Proof. apply sequence_join. Qed.

(** A set is the join of its elements, each formatted at the const-qualified
    element type. *)
Lemma stringify_set (k : set_kind) (u : ty) (c : list (val u)) :
  stringify (t_set k u) c
  = "{" ++ String.concat ", " (List.map (stringify (t_const u)) c) ++ "}".
Proof. apply sequence_join. Qed.

(** A map is the join of its entries, the key formatted at the const-qualified
    key type and the value at the mapped type. *)
Lemma stringify_map (k : map_kind) (u v : ty) (c : list (val u * val v)) :
  stringify (t_map k u v) c
  = "{" ++ String.concat ", "
             (List.map (fun e => stringify (t_const u) (fst e) ++ ": "
                                 ++ stringify v (snd e)) c)
        ++ "}".
Proof. apply (map_join (insert u) (stringify v)). Qed.

(** An empty container of any category is ["{}"]. *)
Lemma stringify_empty (u v : ty) :
  (forall k, stringify (t_seq k u) [] = "{}")
  /\ (forall k, stringify (t_set k u) [] = "{}")
  /\ (forall k, stringify (t_map k u v) [] = "{}")
  /\ stringify (t_stack u) [] = "{}"
  /\ stringify (t_queue u) [] = "{}"
  /\ stringify (t_priority_queue u) [] = "{}".
Proof. repeat split. Qed.

(** C10 (the code departs from it).  At the types [char], [signed char],
    [unsigned char], [char*], [const char*] and [std::string] the formatter
    escapes nothing: a character is written as a single quote, the character
    itself and a single quote, also when it is a single quote, and a string as
    a double quote, its characters unchanged and a double quote.  A
    const-qualified character or string has no quotes at all: the dispatch
    takes the primary template there, so [const std::string s] holding [a] is
    shown by [l(s)] as [s = a], while the canonical form, which the same
    statement writes for a [std::string], has [a] in double quotes; a
    [const char] is written as the character alone, and a const pointer to
    characters as the characters alone. *)
Theorem no_escaping (ch : ascii) (s : string) :
  let env := {| now_ms := 0; localtime := None; thread_id := "1" |} in
  let site := CallSite "src/main.ext" 68 "main" in
  stringify t_char ch = String "'" (String ch (String "'" EmptyString))
  /\ stringify t_signed_char ch = String "'" (String ch (String "'" EmptyString))
  /\ stringify t_unsigned_char ch = String "'" (String ch (String "'" EmptyString))
  /\ stringify t_char "'"%char = "'''"
  /\ stringify t_char_ptr s = dquote ++ s ++ dquote
  /\ stringify t_const_char_ptr s = dquote ++ s ++ dquote
  /\ stringify t_string s = dquote ++ s ++ dquote
  /\ String.length (stringify t_string s) = (String.length s + 2)%nat
  /\ String.substring 1 (String.length s) (stringify t_string s) = s
  /\ stringify t_string ("a" ++ dquote ++ "b{,}")
     = dquote ++ "a" ++ dquote ++ "b{,}" ++ dquote
  /\ stringify (t_const t_char) ch = String ch EmptyString
  /\ stringify (t_const t_signed_char) ch = String ch EmptyString
  /\ stringify (t_const t_unsigned_char) ch = String ch EmptyString
  /\ Spec.canonical (t_const t_char) ch = stringify t_char ch
  /\ stringify (t_const t_char_ptr) s = s
  /\ stringify (t_const t_const_char_ptr) s = s
  /\ stringify (t_const t_string) s = s
  /\ Spec.canonical (t_const t_string) s = stringify t_string s
  /\ stringifiable (t_const t_string) = true
  /\ output (l lp64 initial env site [Arg "s" (t_const t_string) "a"])
     = Some ("main.ext:68: s = a" ++ newline)
  /\ output (l lp64 initial env site [Arg "s" t_string "a"])
     = Some ("main.ext:68: s = " ++ dquote ++ "a" ++ dquote ++ newline).
Proof.
  intros env site.
  repeat split.
  - simpl. rewrite StrFacts.app_length. simpl. lia.
  - simpl. induction s as [|x r IH]; simpl; [reflexivity | now rewrite IH].
Qed.

(** C5 (the code departs from it).  A [std::stack] is written as ["{}"] when
    empty, as the formatted top element in braces when it holds one element,
    and as the formatted top followed by [", ..."] when it holds more; a
    [std::queue] as ["{}"], the front, the front and the back, or the front,
    [", ..., "] and the back, for 0, 1, 2 and 3 or more elements.  A
    [std::priority_queue] has the three shapes of a stack, but its top is not
    formatted: [top()] returns a reference to const, for which the dispatch
    takes the primary template, so the top is inserted as it is.  A priority
    queue of the strings [c] and [a] is written [{c, ...}], while its
    canonical form, which the stack with the same top gets, has [c] in double
    quotes.  No other element is written: the text does not depend on
    [below], [behind] or [between]. *)
Theorem adaptor_summaries (u w : ty) (x y b : val u) (more : list (val u))
  (p q : val w) (others : list (val w))
  (Hu : stringifiable u = true) (Hcu : unqualified u = true)
  (Hw : stringifiable (t_priority_queue w) = true)
  (Hcw : unqualified w = true) :
  let below := b :: more in
  let behind := q :: others in
  let between := b :: more in
  stringify (t_stack u) [] = "{}"
  /\ stringify (t_stack u) [x] = "{" ++ stringify u x ++ "}"
  /\ stringify (t_stack u) (below ++ [x])%list
     = "{" ++ stringify u x ++ ", ...}"
  /\ stringify (t_queue u) [] = "{}"
  /\ stringify (t_queue u) [x] = "{" ++ stringify u x ++ "}"
  /\ stringify (t_queue u) [x; y]
     = "{" ++ stringify u x ++ ", " ++ stringify u y ++ "}"
  /\ stringify (t_queue u) (x :: between ++ [y])%list
     = "{" ++ stringify u x ++ ", ..., " ++ stringify u y ++ "}"
  /\ stringify (t_priority_queue w) [] = "{}"
  /\ stringify (t_priority_queue w) [p] = "{" ++ insert w p ++ "}"
  /\ stringify (t_priority_queue w) (p :: behind)
     = "{" ++ insert w p ++ ", ...}"
  /\ stringifiable (t_priority_queue t_string) = true
  /\ stringify (t_priority_queue t_string) ["c"; "a"] = "{c, ...}"
  /\ Spec.canonical (t_priority_queue t_string) ["c"; "a"]
     = "{" ++ dquote ++ "c" ++ dquote ++ ", ...}"
  /\ stringify (t_stack t_string) ["a"; "c"]
     = Spec.canonical (t_priority_queue t_string) ["c"; "a"].
Proof.
  intros below behind between.
  repeat split; try reflexivity.
  - change (stringify (t_stack u))
      with (Stringifier.stack (stringify u) (@Stringifier.back _)).
    rewrite stack_cases. unfold below.
    change ((b :: more) ++ [x])%list with (b :: (more ++ [x]))%list.
    rewrite List.app_comm_cons, back_snoc.
    destruct more; simpl; now rewrite StrFacts.app_assoc.
  - change (stringify (t_queue u)) with (Stringifier.queue (stringify u)).
    rewrite queue_cases. simpl. now rewrite !StrFacts.app_assoc.
  - change (stringify (t_queue u)) with (Stringifier.queue (stringify u)).
    rewrite queue_cases. unfold between.
    change (x :: (b :: more) ++ [y])%list with (x :: b :: (more ++ [y]))%list.
    replace (Stringifier.back (x :: b :: (more ++ [y])))%list with (Some y)
      by (symmetry; apply (back_snoc (x :: b :: more) y)).
    destruct more; simpl; now rewrite !StrFacts.app_assoc.
  - change (stringify (t_priority_queue w))
      with (Stringifier.stack (insert w) (@Stringifier.front _)).
    rewrite stack_cases. unfold behind. simpl.
    now rewrite StrFacts.app_assoc.
Qed.

(** A stack and a queue of strings, and a priority queue of integers. *)
Lemma adaptor_summaries_witness :
  stringify (t_stack t_string) ["b"; "a"]
  = "{" ++ dquote ++ "a" ++ dquote ++ ", ...}"
  /\ stringify (t_queue t_string) ["a"; "b"; "c"]
     = "{" ++ dquote ++ "a" ++ dquote ++ ", ..., " ++ dquote ++ "c" ++ dquote
       ++ "}"
  /\ stringify (t_priority_queue t_int) [3; 1; 2]%Z = "{3, ...}".
Proof.
  pose proof (@adaptor_summaries t_string t_int "a" "c" "b" []
                3%Z 1%Z [2%Z] eq_refl eq_refl eq_refl eq_refl) as H.
  cbv zeta in H.
  destruct H as (_ & _ & Hs & _ & _ & _ & Hq & _ & _ & Hp & _).
  split; [exact Hs|]. split; [exact Hq | exact Hp].
Defined.

(** ** The separator scan of the FILE block *)

Section Scan.

Variable t : target.

(** The number of values of a [size_t]. *)
Let M := 2 ^ size_bits t.

Lemma M_pos : 0 < M.
Proof. unfold M. apply N.neq_0_lt_0, N.pow_nonzero. discriminate. Qed.

Lemma size_max_succ : size_max t + 1 = M.
Proof. unfold size_max. fold M. pose proof M_pos. lia. Qed.

Lemma size_dec_lt (i : N) : size_dec t i < M.
Proof. unfold size_dec. fold M. apply N.mod_lt. pose proof M_pos. lia. Qed.

Lemma size_dec_pos (i : N) : 0 < i -> i < M -> size_dec t i = i - 1.
Proof.
  intros H0 HM. unfold size_dec. fold M.
  replace (i + size_max t) with ((i - 1) + 1 * M) by (pose proof size_max_succ; lia).
  rewrite N.Div0.mod_add. apply N.mod_small. lia.
Qed.

Lemma size_dec_0 : size_dec t 0 = size_max t.
Proof.
  unfold size_dec. fold M. rewrite N.add_0_l. apply N.mod_small.
  pose proof size_max_succ. lia.
Qed.

Lemma sep_scan_structural (path : string) (sep_idx : N) (n : nat) :
  forall i, i < M -> (i + 1) mod M = N.of_nat n ->
  sep_scan (S n) t path i sep_idx
  = Some match last_sep_below t path n with
         | Some j => N.of_nat j
         | None => sep_idx
         end.
Proof.
  induction n as [|k IH]; intros i Hi Hn.
  - assert (i = size_max t) as ->.
    { destruct (N.eq_dec (i + 1) M) as [E|E]; [pose proof size_max_succ; lia|].
      rewrite N.mod_small in Hn by lia. lia. }
    simpl. now rewrite N.eqb_refl.
  - assert (Hne : i <> size_max t).
    { intros ->. rewrite size_max_succ, N.Div0.mod_same in Hn. lia. }
    assert (Hk : i = N.of_nat k).
    { rewrite N.mod_small in Hn by (pose proof size_max_succ; lia). lia. }
    cbn [sep_scan last_sep_below].
    destruct (N.eqb_spec i (size_max t)) as [E|_]; [contradiction|].
    rewrite <- Hk.
    destruct (is_sep_at t path i); [now rewrite Hk|].
    apply IH; [apply size_dec_lt|].
    destruct (N.eq_dec i 0) as [E0|Hpos].
    + rewrite E0, size_dec_0, size_max_succ, N.Div0.mod_same. lia.
    + rewrite size_dec_pos by lia.
      replace (i - 1 + 1) with i by lia. rewrite N.mod_small by lia. exact Hk.
Qed.

(** The loop of the FILE block reaches its exit for every path. *)
Lemma sep_scan_terminates (path : string) :
  let i0 := size_dec t (strlen path) in
  exists sep_idx,
    sep_scan (S (N.to_nat ((i0 + 1) mod M))) t path i0 (size_max t)
    = Some sep_idx.
Proof.
  intros i0. eexists. apply sep_scan_structural; [apply size_dec_lt|].
  now rewrite N2Nat.id.
Qed.

Lemma last_sep_idx_structural (path : string) :
  last_sep_idx t path
  = match last_sep_below t path
            (N.to_nat ((size_dec t (strlen path) + 1) mod M)) with
    | Some j => N.of_nat j
    | None => size_max t
    end.
Proof.
  unfold last_sep_idx. fold M.
  rewrite sep_scan_structural; [reflexivity | apply size_dec_lt |].
  now rewrite N2Nat.id.
Qed.

Lemma scan_start (path : string) :
  strlen path <= size_max t ->
  N.to_nat ((size_dec t (strlen path) + 1) mod M) = String.length path.
Proof.
  intros H. pose proof size_max_succ as HM.
  destruct (N.eq_dec (strlen path) 0) as [E|E].
  - rewrite E, size_dec_0, HM, N.Div0.mod_same.
    unfold strlen in E. lia.
  - rewrite size_dec_pos by lia.
    replace (strlen path - 1 + 1) with (strlen path) by lia.
    rewrite N.mod_small by lia. unfold strlen. lia.
Qed.

Lemma get_lt (s : string) (j : nat) (c : ascii) :
  String.get j s = Some c -> (j < String.length s)%nat.
Proof.
  revert j; induction s as [|x s IH]; intros [|j] H; simpl in *;
    try discriminate; [lia|]. apply IH in H. lia.
Qed.

Lemma get_drop (k : nat) (s : string) (j : nat) :
  String.get j (Str.drop k s) = String.get (k + j) s.
Proof.
  revert s; induction k as [|k IH]; intros s; [reflexivity|].
  destruct s as [|x s]; simpl; [now destruct j | apply IH].
Qed.

Lemma mem_get (c : ascii) (s : string) :
  Str.mem c s = true -> exists j, String.get j s = Some c.
Proof.
  induction s as [|x s IH]; simpl; [discriminate|].
  destruct (Ascii.eqb_spec x c) as [->|_]; simpl.
  - intros _. now exists O.
  - intros H. destruct (IH H) as [j Hj]. now exists (S j).
Qed.

Lemma split_at (s : string) (i : nat) (c : ascii) :
  String.get i s = Some c ->
  exists pre, s = pre ++ String c (Str.drop (S i) s).
Proof.
  revert i; induction s as [|x s IH]; intros [|i] H; simpl in *;
    try discriminate.
  - injection H as ->. now exists "".
  - destruct (IH _ H) as [pre Hpre]. exists (String x pre).
    simpl. now rewrite <- Hpre.
Qed.

Lemma is_sep_at_get (path : string) (j : nat) :
  is_sep_at t path (N.of_nat j) = true <-> String.get j path = Some (path_sep t).
Proof.
  unfold is_sep_at. rewrite Nat2N.id.
  destruct (String.get j path) as [c|]; [|split; discriminate].
  destruct (Ascii.eqb_spec c (path_sep t)) as [->|Hne]; split; intros H;
    try reflexivity; try discriminate.
  injection H as ->. contradiction.
Qed.

Lemma last_sep_below_spec (path : string) (n : nat) :
  match last_sep_below t path n with
  | Some i =>
      (i < n)%nat /\ is_sep_at t path (N.of_nat i) = true
      /\ forall j, (i < j < n)%nat -> is_sep_at t path (N.of_nat j) = false
  | None => forall j, (j < n)%nat -> is_sep_at t path (N.of_nat j) = false
  end.
Proof.
  induction n as [|k IH]; simpl; [intros j Hj; lia|].
  destruct (is_sep_at t path (N.of_nat k)) eqn:Hk.
  - repeat split; [lia | exact Hk | intros j Hj; lia].
  - destruct (last_sep_below t path k) as [i|].
    + destruct IH as (Hi & Hs & Hafter). repeat split; [lia | exact Hs |].
      intros j Hj. destruct (Nat.eq_dec j k) as [->|Hne]; [exact Hk|].
      apply Hafter. lia.
    + intros j Hj. destruct (Nat.eq_dec j k) as [->|Hne]; [exact Hk|].
      apply IH. lia.
Qed.

(** The file name is the path after its last separator, or the whole path
    when it has none, and holds no separator. *)
Lemma file_name_spec (path : string) :
  strlen path <= size_max t ->
  (Str.mem (path_sep t) path = false /\ file_name t path = path
   \/ exists pre, path = pre ++ String (path_sep t) (file_name t path))
  /\ Str.mem (path_sep t) (file_name t path) = false.
Proof.
  intros Hlen. unfold file_name.
  rewrite last_sep_idx_structural, scan_start by exact Hlen.
  pose proof (last_sep_below_spec path (String.length path)) as Hspec.
  destruct (last_sep_below t path (String.length path)) as [i|].
  - destruct Hspec as (Hi & Hs & Hafter).
    destruct (N.eqb_spec (N.of_nat i) (size_max t)) as [E|_].
    { unfold strlen in Hlen. lia. }
    replace (N.to_nat (N.of_nat i + 1)) with (S i) by lia.
    apply is_sep_at_get in Hs.
    split; [right; now apply split_at|].
    destruct (Str.mem (path_sep t) (Str.drop (S i) path)) eqn:Hm; [|reflexivity].
    apply mem_get in Hm. destruct Hm as [j Hj]. rewrite get_drop in Hj.
    pose proof (@get_lt _ _ _ Hj) as Hlt.
    apply is_sep_at_get in Hj. rewrite Hafter in Hj by lia. discriminate.
  - rewrite N.eqb_refl.
    assert (Hm : Str.mem (path_sep t) path = false).
    { destruct (Str.mem (path_sep t) path) eqn:Hm; [|reflexivity].
      apply mem_get in Hm. destruct Hm as [j Hj].
      pose proof (@get_lt _ _ _ Hj) as Hlt.
      apply is_sep_at_get in Hj. rewrite Hspec in Hj by lia. discriminate. }
    split; [left; now split | exact Hm].
Qed.
End Scan.

(** ** The decoration *)

Create Rewrite HintDb str_norm.
#[local] Hint Rewrite StrFacts.app_assoc StrFacts.app_nil_r written_app
  : str_norm.

(** The operator writes the decoration of the fields it produces. *)
Lemma Prefixer_out_decoration (t : target) (c : config) (env : environment)
  (p : Prefixer) :
  written (Prefixer_out t c env p)
  = Spec.decoration t env p (Spec.fields_produced (curPrefixes c) env).
Proof.
  unfold Prefixer_out, Prefixer_blocks, Spec.fields_produced, Spec.all_fields.
  unfold block_FILE, block_LINE, block_FUNCTION, block_TIME, block_THREAD,
    block_final.
  cbn [filter Spec.flag Spec.is_TIME negb orb].
  destruct (has (curPrefixes c) FILE), (has (curPrefixes c) LINE),
    (has (curPrefixes c) FUNCTION), (has (curPrefixes c) TIME),
    (has (curPrefixes c) THREAD), (localtime env) as [local|] eqn:Hl;
    cbn -[setw put_time file_name dec_Z]; rewrite ?Hl;
    repeat (progress (cbn -[setw put_time file_name dec_Z];
                      autorewrite with str_norm));
    reflexivity.
Qed.

(** The fields produced depend on the mask through the five field flags
    only. *)
Lemma fields_produced_ext (m m' : prefix) (env : environment) :
  (forall f, has m' (Spec.flag f) = has m (Spec.flag f)) ->
  Spec.fields_produced m' env = Spec.fields_produced m env.
Proof.
  intros H. unfold Spec.fields_produced.
  apply List.filter_ext. intros f. now rewrite H.
Qed.

(** Removing TIME from a mask leaves the other flags as they are. *)
Lemma has_xor_TIME (m : prefix) :
  has (m .^ TIME) FILE = has m FILE
  /\ has (m .^ TIME) LINE = has m LINE
  /\ has (m .^ TIME) FUNCTION = has m FUNCTION
  /\ has (m .^ TIME) TIME = negb (has m TIME)
  /\ has (m .^ TIME) THREAD = has m THREAD
  /\ has (m .^ TIME) TYPE_NAME = has m TYPE_NAME.
Proof.
  assert (H : forall k, has (m .^ TIME) (N.shiftl 1 k)
                        = xorb (has m (N.shiftl 1 k)) (N.testbit TIME k)).
  { intros k. rewrite !has_testbit. unfold prefix_xor. apply N.lxor_spec. }
  repeat split.
  - etransitivity; [exact (H 0) | apply xorb_false_r].
  - etransitivity; [exact (H 1) | apply xorb_false_r].
  - etransitivity; [exact (H 2) | apply xorb_false_r].
  - etransitivity; [exact (H 3) | apply xorb_true_r].
  - etransitivity; [exact (H 4) | apply xorb_false_r].
  - etransitivity; [exact (H 5) | apply xorb_false_r].
Qed.

(** C2 (as amended).  For every prefix mask and every call site, the prefix
    written is the decoration of exactly the fields whose flags are in the
    mask, TIME being left out when the local time is not available, in the
    order FILE, LINE, FUNCTION, TIME, THREAD; no other bit of the mask,
    TYPE_NAME included, changes it.  The FILE field is the path after its last
    separator, or the whole path when it holds none, and holds no separator.
    LINE follows [":"] when FILE was emitted and ["Line: "] otherwise.  The
    prefix ends with [": "] iff at least one field was produced, and is empty
    otherwise. *)
Theorem prefix_decoration (t : target) (c : config) (env : environment)
  (p : Prefixer) (Hlen : strlen (get_file_path p) <= size_max t) :
  let fs := Spec.fields_produced (curPrefixes c) env in
  let text := written (Prefixer_out t c env p) in
  let file := file_name t (get_file_path p) in
  text = Spec.decoration t env p fs
  /\ (forall c', (forall f, has (curPrefixes c') (Spec.flag f)
                            = has (curPrefixes c) (Spec.flag f)) ->
                 written (Prefixer_out t c' env p) = text)
  /\ (Str.mem (path_sep t) (get_file_path p) = false /\ file = get_file_path p
      \/ exists pre, get_file_path p = pre ++ String (path_sep t) file)
  /\ Str.mem (path_sep t) file = false
  /\ (fs <> [] <-> Str.ends_with text ": ")
  /\ (fs = [] -> text = "").
Proof.
  intros fs text file.
  assert (Htext : text = Spec.decoration t env p fs)
    by apply Prefixer_out_decoration.
  split; [exact Htext|].
  split.
  { intros c' Hc'. rewrite Htext, Prefixer_out_decoration. unfold fs.
    now rewrite (fields_produced_ext _ _ env Hc'). }
  destruct (file_name_spec t (get_file_path p) Hlen) as [Hfile Hnosep].
  split; [exact Hfile|]. split; [exact Hnosep|].
  rewrite Htext. split; [split|].
  - intros Hne. destruct fs as [|f r]; [contradiction|].
    now exists (Spec.fields_text t env p [] (f :: r)).
  - intros Hends ->. now apply StrFacts.not_ends_with_empty in Hends.
  - now intros ->.
Qed.

(** The prefix of [main.ext:68, main(), 10:02:13.567, TID: 140: ]. *)
Lemma prefix_decoration_witness :
  let c := {| curPrefixes := FILE .| LINE .| FUNCTION .| TIME .| THREAD;
              outputEnabled := true; colorEnabled := false |} in
  let env := {| now_ms := 1234567; localtime := Some (Tm 10 2 13);
                thread_id := "140" |} in
  let p := MkPrefixer "src/main.ext" 68 "main" in
  written (Prefixer_out lp64 c env p)
  = "main.ext:68, main(), 10:02:13.567, TID: 140: "
  /\ Str.mem (path_sep lp64) (file_name lp64 (get_file_path p)) = false.
Proof.
  intros c env p.
  assert (Hlen : strlen (get_file_path p) <= size_max lp64) by (vm_compute; discriminate).
  destruct (prefix_decoration lp64 c env p Hlen) as (Htext & _ & _ & Hnosep & _).
  split; [rewrite Htext; reflexivity | exact Hnosep].
Defined.

(** C2, as stated, fails: with TIME in the mask and no local time available
    the prefix is empty, while the decoration of the fields whose flags are in
    the mask is not. *)
Lemma prefix_decoration_counterexample :
  let c := {| curPrefixes := TIME; outputEnabled := true;
              colorEnabled := false |} in
  let env := {| now_ms := 1234567; localtime := None; thread_id := "140" |} in
  let p := MkPrefixer "src/main.ext" 68 "main" in
  Spec.fields_in (curPrefixes c) = [Spec.TIME_field]
  /\ written (Prefixer_out lp64 c env p) = ""
  /\ written (Prefixer_out lp64 c env p)
     <> Spec.decoration lp64 env p (Spec.fields_in (curPrefixes c)).
Proof.
  repeat split. discriminate.
Qed.

(** ** Local time not available *)

(** C8. When TIME is in the mask and the conversion to local time fails, the
    record is written as if TIME were not in the mask: the TIME field is left
    out, [cnt] is not incremented for it, so it brings no [", "], changes no
    later separator and does not by itself bring the final [": "], and every
    other field is written as it would be.  This holds for the prefix and for
    the three logging statements, and for that record only: a record written
    when the conversion succeeds has its TIME field. *)
Theorem time_unavailable_is_omitted (t : target) (c : config)
  (env : environment) (p : Prefixer)
  (Htime : has (curPrefixes c) TIME = true) (Hfail : localtime env = None) :
  let c' := set_prefixes (curPrefixes c .^ TIME) c in
  has (curPrefixes c') TIME = false
  /\ written (Prefixer_out t c env p) = written (Prefixer_out t c' env p)
  /\ Prefixer_cnt t c env p = Prefixer_cnt t c' env p
  /\ (forall s vs, output (l t c env s vs) = output (l t c' env s vs))
  /\ (forall s name u v len,
        output (l_arr t c env s name u v len)
        = output (l_arr t c' env s name u v len))
  /\ (forall s name u v cols rows,
        output (l_mat t c env s name u v cols rows)
        = output (l_mat t c' env s name u v cols rows))
  /\ (forall env' local, localtime env' = Some local ->
        In Spec.TIME_field (Spec.fields_produced (curPrefixes c) env')).
Proof.
  intros c'.
  assert (Honly : forall env' local, localtime env' = Some local ->
            In Spec.TIME_field (Spec.fields_produced (curPrefixes c) env')).
  { intros env' local Hl. unfold Spec.fields_produced.
    apply List.filter_In. split; [simpl; tauto|].
    cbn [Spec.flag Spec.is_TIME negb orb]. now rewrite Htime, Hl. }
  cut (has (curPrefixes c') TIME = false
       /\ written (Prefixer_out t c env p) = written (Prefixer_out t c' env p)
       /\ Prefixer_cnt t c env p = Prefixer_cnt t c' env p
       /\ (forall s vs, output (l t c env s vs) = output (l t c' env s vs))
       /\ (forall s name u v len,
             output (l_arr t c env s name u v len)
             = output (l_arr t c' env s name u v len))
       /\ (forall s name u v cols rows,
             output (l_mat t c env s name u v cols rows)
             = output (l_mat t c' env s name u v cols rows))).
  { intros (H1 & H2 & H3 & H4 & H5 & H6). repeat split; assumption. }
  destruct (has_xor_TIME (curPrefixes c)) as (HF & HL & HFu & HT & HTh & HTy).
  assert (Hpre : forall q, written (Prefixer_out t c env q)
                           = written (Prefixer_out t c' env q)).
  { intros q. rewrite !Prefixer_out_decoration. f_equal.
    unfold Spec.fields_produced, Spec.all_fields, c'.
    cbn [filter Spec.flag Spec.is_TIME negb orb set_prefixes curPrefixes].
    now rewrite HF, HL, HFu, HT, HTh, Htime, Hfail. }
  assert (Hty : type_name c' = type_name c).
  { unfold type_name, c'. cbn [set_prefixes curPrefixes]. now rewrite HTy. }
  split; [unfold c'; cbn [set_prefixes curPrefixes]; now rewrite HT, Htime|].
  split; [apply Hpre|].
  split.
  { unfold Prefixer_cnt, Prefixer_blocks, block_FILE, block_LINE,
      block_FUNCTION, block_TIME, block_THREAD, c'.
    cbn [set_prefixes curPrefixes].
    rewrite HF, HL, HFu, HT, HTh, Htime, Hfail.
    destruct (has (curPrefixes c) FILE), (has (curPrefixes c) LINE),
      (has (curPrefixes c) FUNCTION), (has (curPrefixes c) THREAD);
      reflexivity. }
  split; [|split].
  - intros s vs. unfold l.
    destruct (l_body vs) as [ch|]; [|reflexivity].
    destruct (forallb _ vs); [|reflexivity].
    change (outputEnabled c') with (outputEnabled c).
    destruct (outputEnabled c); [|reflexivity].
    assert (Hch : insert_chain c' ch = insert_chain c ch).
    { unfold insert_chain. f_equal. apply List.map_ext.
      intros [| | |]; simpl; auto. }
    cbn [output]. rewrite !written_app, Hpre, Hch. reflexivity.
  - intros s name u v len. unfold l_arr.
    destruct (stringifiable u); [|reflexivity].
    unfold Array_out. change (outputEnabled c') with (outputEnabled c).
    destruct (outputEnabled c); [|reflexivity].
    destruct (if 0 <? arr_len _ then _ else _) as [first| |]; try reflexivity.
    cbn [bind].
    destruct (for_each _ _) as [others| |]; try reflexivity.
    cbn [bind output written]. rewrite !written_app, Hpre, Hty. reflexivity.
  - intros s name u v cols rows. unfold l_mat.
    destruct (stringifiable u); [|reflexivity].
    unfold Matrix_out. change (outputEnabled c') with (outputEnabled c).
    destruct (outputEnabled c); [|reflexivity].
    destruct (Matrix_body _) as [body| |]; try reflexivity.
    cbn [bind output written]. rewrite !written_app, Hpre, Hty. reflexivity.
Qed.

(** With FILE, TIME and THREAD asked for and no local time, the prefix is
    that of FILE and THREAD. *)
Lemma time_unavailable_is_omitted_witness :
  let c := {| curPrefixes := FILE .| TIME .| THREAD; outputEnabled := true;
              colorEnabled := false |} in
  let env := {| now_ms := 1234567; localtime := None; thread_id := "140" |} in
  let p := MkPrefixer "src/main.ext" 68 "main" in
  written (Prefixer_out lp64 c env p)
  = written (Prefixer_out lp64 (set_prefixes (FILE .| THREAD) c) env p)
  /\ written (Prefixer_out lp64 c env p) = "main.ext, TID: 140: ".
Proof.
  intros c env p.
  destruct (time_unavailable_is_omitted lp64 c env p eq_refl eq_refl)
    as (_ & Hpre & _).
  split; [exact Hpre | reflexivity].
Defined.

(** ** The scalar list *)

Lemma unsnoc_snoc (A : Type) (init : list A) (z : A) :
  unsnoc (init ++ [z]) = Some (init, z).
Proof.
  induction init as [|x init IH]; [reflexivity|].
  simpl. now rewrite IH.
Qed.

Lemma snoc_cases (A : Type) (vs : list A) :
  vs = [] \/ exists init z, vs = (init ++ [z])%list.
Proof.
  destruct vs as [|x r]; [now left|]. right.
  destruct (@List.exists_last _ (x :: r)) as (init & z & H); [discriminate|].
  now exists init, z.
Qed.

Lemma insert_LX (c : config) (v : arg) :
  written (insert_chain c (GL_INTERNAL_LX v)) = Spec.pair_text c v.
Proof.
  unfold insert_chain, GL_INTERNAL_LX, Spec.pair_text. simpl.
  unfold type_name.
  destruct (has (curPrefixes c) TYPE_NAME); simpl;
    now rewrite ?StrFacts.app_nil_r.
Qed.

Lemma insert_chain_app (c : config) (a b : chain) :
  insert_chain c (a ++ b) = (insert_chain c a ++ insert_chain c b)%list.
Proof. unfold insert_chain. now rewrite List.map_app, List.concat_app. Qed.

Lemma separators_app (a b : chain) :
  separators (a ++ b) = (separators a + separators b)%nat.
Proof. unfold separators. now rewrite List.filter_app, List.length_app. Qed.

(** The macro of arity [n] on [n] arguments: the pairs joined by [", "], with
    [n - 1] separators. *)
Lemma GL_INTERNAL_L_join (c : config) (n : nat) :
  forall vs, List.length vs = S n ->
  exists ch,
    GL_INTERNAL_L (S n) vs = Some ch
    /\ written (insert_chain c ch)
       = String.concat ", " (List.map (Spec.pair_text c) vs)
    /\ separators ch = n.
Proof.
  induction n as [|k IH]; intros vs Hlen.
  - destruct vs as [|v [|w r]]; try discriminate Hlen.
    exists (GL_INTERNAL_LX v). repeat split. apply insert_LX.
  - destruct (snoc_cases vs) as [->|(init & z & ->)]; [discriminate Hlen|].
    rewrite List.length_app in Hlen. simpl in Hlen.
    destruct (IH init) as (ch & Hch & Htext & Hsep); [lia|].
    exists (ch ++ [op_lit ", "] ++ GL_INTERNAL_LX z)%list.
    split; [|split].
    + change (GL_INTERNAL_L (S (S k)) (init ++ [z]))
        with (match unsnoc (init ++ [z]) with
              | Some (init0, vn) =>
                  match GL_INTERNAL_L (S k) init0 with
                  | Some ch0 => Some (ch0 ++ [op_lit ", "] ++ GL_INTERNAL_LX vn)%list
                  | None => None
                  end
              | None => None
              end).
      now rewrite unsnoc_snoc, Hch.
    + rewrite !insert_chain_app, !written_app, Htext, insert_LX.
      rewrite List.map_app. destruct init as [|x init]; [simpl in Hlen; lia|].
      cbn [List.map]. rewrite StrFacts.concat_snoc. reflexivity.
    + rewrite !separators_app, Hsep. cbn. lia.
Qed.

Lemma l_names_nth (j : nat) :
  (j < 16)%nat -> List.nth_error l_names j = Some (macro_name (16 - j)).
Proof.
  intros H. do 16 (destruct j as [|j]; [reflexivity|]). lia.
Qed.

(** The dispatch names the macro of the arity of the call, for 1 to 16
    arguments. *)
Lemma l_body_dispatch (vs : list arg) :
  (1 <= List.length vs <= 16)%nat ->
  l_body vs = GL_INTERNAL_L (List.length vs) vs.
Proof.
  intros H. unfold l_body, GL_INTERNAL_L_DISPATCH, va_args.
  destruct vs as [|v r]; [simpl in H; lia|].
  rewrite List.nth_error_app2 by (rewrite List.length_map; lia).
  rewrite List.length_map, l_names_nth by lia.
  replace (16 - (16 - List.length (v :: r)))%nat with (List.length (v :: r)) by lia.
  reflexivity.
Qed.

(** A call with no argument or with more than 16 is rejected. *)
Lemma l_body_arity (vs : list arg) :
  l_body vs <> None <-> (1 <= List.length vs <= 16)%nat.
Proof.
  split.
  - intros H. destruct vs as [|v r]; [now contradiction H|].
    destruct (Nat.le_gt_cases (List.length (v :: r)) 16) as [Hle|Hgt];
      [simpl in *; lia|].
    contradiction H. unfold l_body, GL_INTERNAL_L_DISPATCH, va_args.
    rewrite List.nth_error_app1 by (rewrite List.length_map; lia).
    rewrite List.nth_error_map.
    destruct (List.nth_error (v :: r) 16) eqn:E; [reflexivity|].
    apply List.nth_error_None in E. lia.
  - intros H. rewrite l_body_dispatch by exact H.
    destruct (List.length vs) as [|n] eqn:Hn; [lia|].
    destruct (@GL_INTERNAL_L_join initial n vs Hn) as (ch & -> & _). discriminate.
Qed.

(** What [l] writes when output is enabled. *)
Lemma l_enabled (t : target) (c : config) (env : environment) (s : call_site)
  (vs : list arg) (ch : chain) :
  l_body vs = Some ch ->
  forallb (fun v => stringifiable (arg_ty v)) vs = true ->
  outputEnabled c = true ->
  output (l t c env s vs)
  = Some (written (color_start c)
          ++ written (Prefixer_out t c env (Prefixer_at s))
          ++ written (insert_chain c ch)
          ++ written (color_end c)
          ++ GL_NEWLINE).
Proof.
  intros Hb Hwf Hon. unfold l. rewrite Hb, Hwf, Hon. cbn [output].
  f_equal. cbn [List.app written]. rewrite !written_app. cbn [written].
  now rewrite StrFacts.app_nil_r.
Qed.

(** C4. For a scalar list of [k] arguments, [1 <= k <= 16], the body is the
    [k] pairs in the order written, each pair being ["type "] iff TYPE_NAME is
    in the mask, then the expression text, then [" = "], then the formatted
    value; the pairs are joined by [", "], and the chain of the macro holds
    exactly [k - 1] separators.  With output enabled the record is the colour
    start, the prefix, this body, the colour end and the newline. *)
Theorem scalar_list_body (t : target) (c : config) (env : environment)
  (s : call_site) (vs : list arg)
  (Hlo : (1 <= List.length vs)%nat) (Hhi : (List.length vs <= 16)%nat) :
  let body := String.concat ", " (List.map (Spec.pair_text c) vs) in
  exists ch,
    l_body vs = Some ch
    /\ written (insert_chain c ch) = body
    /\ separators ch = (List.length vs - 1)%nat
    /\ (forallb (fun v => stringifiable (arg_ty v)) vs = true ->
        outputEnabled c = true ->
        output (l t c env s vs)
        = Some (written (color_start c)
                ++ written (Prefixer_out t c env (Prefixer_at s))
                ++ body
                ++ written (color_end c)
                ++ GL_NEWLINE)).
Proof.
  intros body.
  destruct (List.length vs) as [|n] eqn:Hn; [lia|].
  destruct (@GL_INTERNAL_L_join c n vs Hn) as (ch & Hch & Htext & Hsep).
  assert (Hb : l_body vs = Some ch).
  { rewrite l_body_dispatch by lia. now rewrite Hn. }
  exists ch. repeat split; [exact Hb | exact Htext | lia |].
  intros Hwf Hon. rewrite (@l_enabled t c env s vs ch Hb Hwf Hon).
  now rewrite Htext.
Qed.

(** [l(i, s)] with [i = 1] and the [std::string] [s = "s"], no prefix. *)
Lemma scalar_list_body_witness :
  let c := {| curPrefixes := NONE; outputEnabled := true;
              colorEnabled := false |} in
  let env := {| now_ms := 0; localtime := None; thread_id := "1" |} in
  let s := CallSite "src/main.ext" 68 "main" in
  let vs := [Arg "i" t_int 1%Z; Arg "s" t_string "s"] in
  exists ch,
    l_body vs = Some ch
    /\ separators ch = 1%nat
    /\ output (l lp64 c env s vs)
       = Some ("i = 1, s = " ++ dquote ++ "s" ++ dquote ++ newline).
Proof.
  intros c env s vs.
  destruct (@scalar_list_body lp64 c env s vs
              ltac:(simpl; lia) ltac:(simpl; lia))
    as (ch & Hb & _ & Hsep & Hout).
  exists ch. split; [exact Hb|]. split; [exact Hsep|].
  rewrite Hout; reflexivity.
Defined.

(** ** Output disabled *)

(** The traces of the three statements when output is disabled: [l] does
    nothing at all; [l_arr] and [l_mat] construct their [Prefixer] and do
    nothing else, whatever storage and lengths they are given. *)
Lemma disabled_traces (t : target) (c : config) (env : environment)
  (s : call_site) :
  outputEnabled c = false ->
  (forall vs, (1 <= List.length vs <= 16)%nat ->
              forallb (fun v => stringifiable (arg_ty v)) vs = true ->
              l t c env s vs = Done [])
  /\ (forall name u v len, stringifiable u = true ->
        l_arr t c env s name u v len = Done [Construct (Prefixer_at s)])
  /\ (forall name u v cols rows, stringifiable u = true ->
        l_mat t c env s name u v cols rows = Done [Construct (Prefixer_at s)]).
Proof.
  intros Hoff. split; [|split].
  - intros vs Har Hwf. unfold l.
    destruct (l_body vs) as [ch|] eqn:Hb.
    + now rewrite Hwf, Hoff.
    + exfalso. apply (proj2 (l_body_arity vs)) in Har. contradiction.
  - intros name u v len Hwf. unfold l_arr, Array_out.
    now rewrite Hwf, Hoff.
  - intros name u v cols rows Hwf. unfold l_mat, Matrix_out.
    now rewrite Hwf, Hoff.
Qed.

(** C1. With [outputEnabled] false, each of the three statements, for every
    prefix mask, colour setting, call site and well-formed argument list,
    sends the empty byte sequence to the sink. *)
Theorem disabled_output_is_empty (t : target) (c : config) (env : environment)
  (s : call_site) (Hoff : outputEnabled c = false) :
  (forall vs, (1 <= List.length vs <= 16)%nat ->
              forallb (fun v => stringifiable (arg_ty v)) vs = true ->
              output (l t c env s vs) = Some "")
  /\ (forall name u v len, stringifiable u = true ->
        output (l_arr t c env s name u v len) = Some "")
  /\ (forall name u v cols rows, stringifiable u = true ->
        output (l_mat t c env s name u v cols rows) = Some "").
Proof.
  destruct (@disabled_traces t c env s Hoff) as (Hl & Ha & Hm).
  split; [|split].
  - intros vs Har Hwf. now rewrite Hl.
  - intros name u v len Hwf. now rewrite Ha.
  - intros name u v cols rows Hwf. now rewrite Hm.
Qed.

(** A scalar list, an array whose stated length exceeds its storage, and a
    matrix, with every prefix and colour asked for and output disabled. *)
Lemma disabled_output_is_empty_witness :
  let c := {| curPrefixes := FILE .| LINE .| FUNCTION .| TIME .| THREAD
                             .| TYPE_NAME;
              outputEnabled := false; colorEnabled := true |} in
  let env := {| now_ms := 1234567; localtime := Some (Tm 10 2 13);
                thread_id := "140" |} in
  let s := CallSite "src/main.ext" 68 "main" in
  output (l lp64 c env s [Arg "i" t_int 1%Z; Arg "s" t_string "s"]) = Some ""
  /\ output (l_arr lp64 c env s "a" t_int [0; 1; 2]%Z 4) = Some ""
  /\ output (l_mat lp64 c env s "m" t_int [[11; 12]; [21; 22]]%Z 2 2) = Some "".
Proof.
  intros c env s.
  destruct (@disabled_output_is_empty lp64 c env s eq_refl) as (Hl & Ha & Hm).
  split; [|split].
  - apply Hl; [simpl; lia | reflexivity].
  - apply Ha. reflexivity.
  - apply Hm. reflexivity.
Defined.

(** C9 (as amended).  With [outputEnabled] false, a scalar-list statement
    does not construct the prefix decorator: the test of the flag encloses the
    whole statement, so it has no effect at all.  The array and the matrix
    statements do construct the decorator from the call site and then write
    nothing; none of the three samples the clock or asks for the thread id. *)
Theorem disabled_statement_effects (t : target) (c : config)
  (env : environment) (s : call_site) (Hoff : outputEnabled c = false) :
  (forall vs, (1 <= List.length vs <= 16)%nat ->
              forallb (fun v => stringifiable (arg_ty v)) vs = true ->
              exists tr, l t c env s vs = Done tr
                         /\ constructed tr = [] /\ queries tr = []
                         /\ written tr = "")
  /\ (forall name u v len, stringifiable u = true ->
        exists tr, l_arr t c env s name u v len = Done tr
                   /\ constructed tr = [Prefixer_at s] /\ queries tr = []
                   /\ written tr = "")
  /\ (forall name u v cols rows, stringifiable u = true ->
        exists tr, l_mat t c env s name u v cols rows = Done tr
                   /\ constructed tr = [Prefixer_at s] /\ queries tr = []
                   /\ written tr = "").
Proof.
  destruct (@disabled_traces t c env s Hoff) as (Hl & Ha & Hm).
  split; [|split].
  - intros vs Har Hwf. exists []. now rewrite Hl.
  - intros name u v len Hwf. exists [Construct (Prefixer_at s)]. now rewrite Ha.
  - intros name u v cols rows Hwf. exists [Construct (Prefixer_at s)].
    now rewrite Hm.
Qed.

(** [l(i)] constructs nothing; [l_arr(a, 3)] constructs its decorator. *)
Lemma disabled_statement_effects_witness :
  let c := {| curPrefixes := FILE .| LINE .| TIME .| THREAD;
              outputEnabled := false; colorEnabled := false |} in
  let env := {| now_ms := 1234567; localtime := Some (Tm 10 2 13);
                thread_id := "140" |} in
  let s := CallSite "src/main.ext" 68 "main" in
  (exists tr, l lp64 c env s [Arg "i" t_int 1%Z] = Done tr
              /\ constructed tr = [])
  /\ (exists tr, l_arr lp64 c env s "a" t_int [0; 1; 2]%Z 3 = Done tr
                 /\ constructed tr = [Prefixer_at s]).
Proof.
  intros c env s.
  destruct (@disabled_statement_effects lp64 c env s eq_refl) as (Hl & Ha & _).
  split.
  - destruct (Hl [Arg "i" t_int 1%Z]) as (tr & Htr & Hc & _);
      [simpl; lia | reflexivity |].
    exists tr. now split.
  - destruct (Ha "a" t_int [0; 1; 2]%Z 3 eq_refl) as (tr & Htr & Hc & _).
    exists tr. now split.
Defined.

(** C9, as stated, fails: the disabled [l(i)] leaves no trace in which a
    decorator is constructed. *)
Lemma disabled_statement_effects_counterexample :
  let c := {| curPrefixes := FILE .| LINE .| TIME .| THREAD;
              outputEnabled := false; colorEnabled := false |} in
  let env := {| now_ms := 1234567; localtime := Some (Tm 10 2 13);
                thread_id := "140" |} in
  let s := CallSite "src/main.ext" 68 "main" in
  ~ exists tr, l lp64 c env s [Arg "i" t_int 1%Z] = Done tr
               /\ constructed tr = [Prefixer_at s]
               /\ written tr = "".
Proof.
  intros c env s (tr & Htr & Hc & _).
  vm_compute in Htr. injection Htr as <-. discriminate Hc.
Qed.

(** ** The matrix record *)

(** A loop whose body succeeds at every index writes the bodies in order. *)
Lemma for_each_done (I : Type) (idx : list I) (body : I -> outcome trace)
  (g : I -> trace) :
  (forall i, In i idx -> body i = Done (g i)) ->
  for_each idx body = Done (List.concat (List.map g idx)).
Proof.
  induction idx as [|i r IH]; intros H; [reflexivity|].
  cbn [for_each]. rewrite (H i) by now left. cbn [bind].
  rewrite IH by (intros j Hj; apply H; now right). reflexivity.
Qed.

Lemma written_concat (I : Type) (g : I -> trace) (idx : list I) :
  written (List.concat (List.map g idx))
  = Str.cat (List.map (fun i => written (g i)) idx).
Proof.
  induction idx as [|i r IH]; [reflexivity|].
  cbn [List.map List.concat Str.cat]. now rewrite written_app, IH.
Qed.

Lemma cat_flat_map (I J : Type) (f : J -> string) (g : I -> list J)
  (idx : list I) :
  Str.cat (List.map f (List.flat_map g idx))
  = Str.cat (List.map (fun i => Str.cat (List.map f (g i))) idx).
Proof.
  induction idx as [|i r IH]; [reflexivity|].
  cbn [List.flat_map List.map Str.cat].
  now rewrite List.map_app, StrFacts.cat_app, IH.
Qed.

Lemma range_0 (n : N) : 0 < n -> range 0 n = 0 :: range 1 n.
Proof.
  intros H. unfold range.
  replace (N.to_nat n - N.to_nat 0)%nat with (S (N.to_nat n - N.to_nat 1))
    by lia.
  reflexivity.
Qed.

Lemma row_major_in (rows cols i j : N) :
  In i (range 0 rows) -> In j (range 0 cols) ->
  In (i, j) (Spec.row_major rows cols).
Proof.
  intros Hi Hj. unfold Spec.row_major. apply List.in_flat_map.
  exists i. split; [exact Hi|]. now apply List.in_map.
Qed.

Lemma Matrix_at_cell (m : Matrix) (i j : N) :
  Matrix_at m i j
  = match Spec.cell (mat_elem m) (mat_val m) i j with
    | Some x => Done (stringify (mat_elem m) x)
    | None => Undefined
    end.
Proof.
  unfold Matrix_at, Spec.cell.
  now destruct (List.nth_error (mat_val m) (N.to_nat i)).
Qed.

Section InBounds.

Variable m : Matrix.
Hypothesis Hin :
  Spec.in_bounds (mat_elem m) (mat_val m) (mat_cols m) (mat_rows m) = true.

(** The formatted element at [(i, j)]. *)
Let text (i j : N) : string :=
  match Spec.cell (mat_elem m) (mat_val m) i j with
  | Some x => stringify (mat_elem m) x
  | None => ""
  end.

Lemma Matrix_at_in (i j : N) :
  In i (range 0 (mat_rows m)) -> In j (range 0 (mat_cols m)) ->
  Matrix_at m i j = Done (text i j).
Proof.
  intros Hi Hj. unfold Spec.in_bounds in Hin.
  rewrite List.forallb_forall in Hin.
  specialize (Hin (i, j) (row_major_in _ _ _ _ Hi Hj)). cbn [fst snd] in Hin.
  rewrite Matrix_at_cell. unfold text.
  now destruct (Spec.cell (mat_elem m) (mat_val m) i j).
Qed.

Lemma entry_written (i j : N) :
  written [Write ", "; Write "["; Write (dec_N i); Write ",";
           Write (dec_N j); Write "] = "; Write (text i j)]
  = ", " ++ Spec.entry_text (mat_elem m) (mat_val m) (i, j).
Proof.
  unfold Spec.entry_text. fold (text (fst (i, j)) (snd (i, j))).
  cbn [fst snd written]. cbn -[dec_N].
  autorewrite with str_norm. reflexivity.
Qed.

Lemma first_row_entry_written (j : N) :
  written [Write ", "; Write "[0,"; Write (dec_N j); Write "] = ";
           Write (text 0 j)]
  = ", " ++ Spec.entry_text (mat_elem m) (mat_val m) (0, j).
Proof.
  unfold Spec.entry_text. fold (text (fst (0, j)) (snd (0, j))).
  cbn [fst snd written]. change (dec_N 0) with "0". cbn -[dec_N].
  autorewrite with str_norm. reflexivity.
Qed.

(** The body written for a matrix within its storage is the body of the
    specification. *)
Lemma Matrix_body_spec :
  exists tr,
    Matrix_body m = Done tr
    /\ written tr
       = Spec.matrix_body (mat_elem m) (mat_val m) (mat_cols m) (mat_rows m).
Proof.
  unfold Matrix_body, Spec.matrix_body.
  replace (mat_cols m <=? 0) with (mat_cols m =? 0)
    by (destruct (N.eqb_spec (mat_cols m) 0), (N.leb_spec (mat_cols m) 0);
        try reflexivity; lia).
  replace (mat_rows m <=? 0) with (mat_rows m =? 0)
    by (destruct (N.eqb_spec (mat_rows m) 0), (N.leb_spec (mat_rows m) 0);
        try reflexivity; lia).
  destruct (N.eqb_spec (mat_cols m) 0) as [Hc|Hc];
    [now exists [Write "{}"]|].
  destruct (N.eqb_spec (mat_rows m) 0) as [Hr|Hr];
    [now exists [Write "{}"]|].
  cbn [orb].
  assert (Hrows : range 0 (mat_rows m) = 0 :: range 1 (mat_rows m))
    by (apply range_0; lia).
  assert (Hcols : range 0 (mat_cols m) = 0 :: range 1 (mat_cols m))
    by (apply range_0; lia).
  assert (Hi0 : In 0 (range 0 (mat_rows m))) by (rewrite Hrows; now left).
  assert (Hj0 : In 0 (range 0 (mat_cols m))) by (rewrite Hcols; now left).
  rewrite (@Matrix_at_in 0 0 Hi0 Hj0). cbn [bind].
  rewrite (@for_each_done _ (range 1 (mat_cols m)) (Matrix_first_row_entry m)
             (fun j => [Write ", "; Write "[0,"; Write (dec_N j);
                        Write "] = "; Write (text 0 j)])).
  2:{ intros j Hj. unfold Matrix_first_row_entry.
      rewrite (@Matrix_at_in 0 j Hi0) by (rewrite Hcols; now right).
      reflexivity. }
  cbn [bind].
  rewrite (@for_each_done _ (range 1 (mat_rows m))
             (fun i => for_each (range 0 (mat_cols m)) (Matrix_entry m i))
             (fun i => List.concat
                         (List.map
                            (fun j => [Write ", "; Write "["; Write (dec_N i);
                                       Write ","; Write (dec_N j);
                                       Write "] = "; Write (text i j)])
                            (range 0 (mat_cols m))))).
  2:{ intros i Hi. apply for_each_done. intros j Hj. unfold Matrix_entry.
      rewrite (@Matrix_at_in i j) by (try exact Hj; rewrite Hrows; now right).
      reflexivity. }
  cbn [bind]. eexists. split; [reflexivity|].
  rewrite written_app, written_app, !written_concat.
  unfold Spec.row_major. rewrite Hrows. cbn [List.flat_map].
  rewrite Hcols at 1. cbn [List.map].
  change (((0, 0) :: List.map (fun j => (0, j)) (range 1 (mat_cols m))) ++ ?r)%list
    with ((0, 0) :: (List.map (fun j => (0, j)) (range 1 (mat_cols m)) ++ r))%list.
  cbn [List.app List.map]. rewrite StrFacts.concat_cons.
  rewrite List.map_map, List.map_app, StrFacts.cat_app, List.map_map.
  rewrite (cat_flat_map
             (fun ij => ", " ++ Spec.entry_text (mat_elem m) (mat_val m) ij)).
  f_equal; [|f_equal].
  - unfold Spec.entry_text. fold (text (fst (0, 0)) (snd (0, 0))).
    cbn [fst snd written]. cbn -[dec_N]. change (dec_N 0) with "0".
    cbn. autorewrite with str_norm. reflexivity.
  - f_equal. apply List.map_ext. intros j. apply first_row_entry_written.
  - f_equal. apply List.map_ext. intros i. rewrite written_concat.
    rewrite List.map_map. f_equal. apply List.map_ext. intros j.
    apply entry_written.
Qed.

End InBounds.

(** C6. With output enabled, a matrix record is the colour start, the prefix,
    ["type "] iff TYPE_NAME is in the mask, the name and [": "], then the
    body, the colour end and the newline.  The body is exactly ["{}"] when
    [cols] or [rows] is 0; otherwise it is the [rows] times [cols] entries
    ["[i,j] = v"] in row-major order joined by [", "]: only the first entry
    has no [", "] in front, and nothing else separates two rows.  The 2 by 2
    matrix [{{11, 12}, {21, 22}}] named [m], with mask NONE and the default
    colour setting, gives
    ["m: [0,0] = 11, [0,1] = 12, [1,0] = 21, [1,1] = 22"] and a newline. *)
Theorem matrix_record (t : target) (c : config) (env : environment)
  (s : call_site) (name : string) (u : ty) (v : list (list (val u)))
  (cols rows : N)
  (Hwf : stringifiable u = true) (Hon : outputEnabled c = true)
  (Hin : Spec.in_bounds u v cols rows = true) :
  output (l_mat t c env s name u v cols rows)
  = Some (written (color_start c)
          ++ written (Prefixer_out t c env (Prefixer_at s))
          ++ written (type_name c)
          ++ name ++ ": "
          ++ Spec.matrix_body u v cols rows
          ++ written (color_end c)
          ++ GL_NEWLINE)
  /\ (cols = 0 \/ rows = 0 -> Spec.matrix_body u v cols rows = "{}")
  /\ (0 < cols -> 0 < rows ->
      Spec.matrix_body u v cols rows
      = String.concat ", "
          (List.map (Spec.entry_text u v) (Spec.row_major rows cols)))
  /\ (forall t' env' s',
        output (l_mat t' {| curPrefixes := NONE; outputEnabled := true;
                            colorEnabled := false |}
                      env' s' "m" t_int [[11; 12]; [21; 22]]%Z 2 2)
        = Some ("m: [0,0] = 11, [0,1] = 12, [1,0] = 21, [1,1] = 22"
                ++ newline)).
Proof.
  split; [|split; [|split]].
  - unfold l_mat. rewrite Hwf. unfold Matrix_out. rewrite Hon.
    destruct (@Matrix_body_spec (make_matrix name u v cols rows (Prefixer_at s)) Hin)
      as (tr & Htr & Hbody).
    rewrite Htr. cbn [bind output written make_matrix mat_name mat_prefixer].
    rewrite !written_app, Hbody. cbn [written make_matrix mat_elem mat_val
                                       mat_cols mat_rows].
    autorewrite with str_norm. reflexivity.
  - unfold Spec.matrix_body. intros [-> | ->]; [reflexivity|].
    now rewrite orb_true_r.
  - intros Hc Hr. unfold Spec.matrix_body.
    destruct (N.eqb_spec cols 0); [lia|]. destruct (N.eqb_spec rows 0); [lia|].
    reflexivity.
  - reflexivity.
Qed.

(** A 1 by 2 matrix of strings with FILE, LINE and TYPE_NAME asked for, and
    the same storage logged with no column. *)
Lemma matrix_record_witness :
  let c := {| curPrefixes := FILE .| LINE .| TYPE_NAME; outputEnabled := true;
              colorEnabled := false |} in
  let env := {| now_ms := 0; localtime := None; thread_id := "1" |} in
  let s := CallSite "src/main.ext" 68 "main" in
  output (l_mat lp64 c env s "m" t_string [["a"; "b"]] 2 1)
  = Some ("main.ext:68: type m: [0,0] = " ++ dquote ++ "a" ++ dquote
          ++ ", [0,1] = " ++ dquote ++ "b" ++ dquote ++ newline)
  /\ output (l_mat lp64 c env s "m" t_string [["a"; "b"]] 0 1)
     = Some ("main.ext:68: type m: {}" ++ newline).
Proof.
  intros c env s. split.
  - destruct (@matrix_record lp64 c env s "m" t_string [["a"; "b"]] 2 1
                eq_refl eq_refl eq_refl) as (Hout & _).
    rewrite Hout. reflexivity.
  - destruct (@matrix_record lp64 c env s "m" t_string [["a"; "b"]] 0 1
                eq_refl eq_refl eq_refl) as (Hout & _).
    rewrite Hout. reflexivity.
Defined.

(** ** Containers against the canonical form *)

Lemma insert_canonical (t : ty) :
  Spec.fallback t = true -> forall x, insert t x = Spec.canonical t x.
Proof.
  induction t; simpl; intros H x; try discriminate H; try reflexivity.
  now apply IHt.
Qed.

(** Brings a string expression to its right-nested form. *)
Ltac str_normalize :=
  repeat (progress (cbn; autorewrite with str_norm)).

(** Case analysis on the reversed list that the goal inspects. *)
Ltac destruct_rev y others E :=
  unfold val; fold val;
  match goal with
  | |- context [@List.rev ?T ?c] =>
      destruct (@List.rev T c) as [|y others] eqn:E;
      [apply (f_equal (@List.length _)) in E;
       rewrite List.length_rev in E; discriminate E|]
  end.

(** Where no element is dispatched at a const-qualified type of another
    category than the fallback, the formatter writes the canonical form. *)
Lemma stringify_canonical (t : ty) :
  Spec.const_safe t = true -> forall x, stringify t x = Spec.canonical t x.
Proof.
  induction t as [| | | | | | | | |u IH|k u IH|k u IH|k u IHu v IHv
                  |u IH|u IH|u IH]; intros H x; try reflexivity.
  - change (insert u x = Spec.canonical u x). now apply insert_canonical.
  - cbn [stringify Spec.canonical]. rewrite sequence_join.
    now rewrite (List.map_ext (stringify u) (Spec.canonical u) (IH H)).
  - cbn [stringify Spec.canonical]. rewrite sequence_join.
    now rewrite (List.map_ext (insert u) (Spec.canonical u)
                   (@insert_canonical u H)).
  - cbn [stringify Spec.canonical]. rewrite map_join.
    cbn [Spec.const_safe] in H. apply andb_true_iff in H. destruct H as [Hu Hv].
    rewrite (List.map_ext (Stringifier.entry (insert u) (stringify v))
               (fun e => Spec.canonical u (fst e) ++ ": "
                         ++ Spec.canonical v (snd e))); [reflexivity|].
    intros e. unfold Stringifier.entry.
    now rewrite (@insert_canonical u Hu), (IHv Hv).
  - cbn [stringify Spec.canonical]. rewrite stack_cases.
    destruct x as [|a [|b r]]; [reflexivity | |].
    + cbn; rewrite ?(IH H); str_normalize; reflexivity.
    + unfold Stringifier.back. destruct_rev y others E.
      destruct others as [|z others];
        [apply (f_equal (@List.length _)) in E;
         rewrite List.length_rev in E; discriminate E|].
      cbn; rewrite ?(IH H); str_normalize; reflexivity.
  - cbn [stringify Spec.canonical]. rewrite queue_cases.
    destruct x as [|a [|b [|d r]]]; [reflexivity | | |].
    + cbn; rewrite ?(IH H); str_normalize; reflexivity.
    + cbn; rewrite ?(IH H); str_normalize; reflexivity.
    + unfold Stringifier.back. destruct_rev y others E.
      cbn; rewrite ?(IH H); str_normalize; reflexivity.
  - cbn [stringify Spec.canonical]. rewrite stack_cases.
    destruct x as [|a [|b r]]; [reflexivity | |]; cbn;
      rewrite (@insert_canonical u H); str_normalize; reflexivity.
Qed.

(** C3 (the code departs from it).  A sequence container is written as the
    join by [", "] of its elements in braces, each element formatted by the
    dispatch at the element type, and an empty container as ["{}"].  A set
    and the keys of a map are formatted at the const-qualified element type,
    for which the dispatch takes the primary template: a [std::set] of the
    strings [a] and [b] is written [{a, b}], while its canonical form, which
    the [std::vector] of the same strings gets, has both strings in double
    quotes; the key of a [std::map] from strings to strings is written bare
    and its value quoted; a set of [bool] shows [1]; a set of [char] shows
    the bare character. *)
Theorem containers_join_at_yielded_type :
  (forall k u c, stringify (t_seq k u) c
                 = "{" ++ String.concat ", " (List.map (stringify u) c) ++ "}")
  /\ (forall k u c,
        stringify (t_set k u) c
        = "{" ++ String.concat ", " (List.map (stringify (t_const u)) c) ++ "}")
  /\ (forall k u v c,
        stringify (t_map k u v) c
        = "{" ++ String.concat ", "
                   (List.map (fun e => stringify (t_const u) (fst e) ++ ": "
                                       ++ stringify v (snd e)) c)
              ++ "}")
  /\ stringify (t_set std_set t_string) ["a"; "b"] = "{a, b}"
  /\ Spec.canonical (t_set std_set t_string) ["a"; "b"]
     = "{" ++ dquote ++ "a" ++ dquote ++ ", " ++ dquote ++ "b" ++ dquote ++ "}"
  /\ stringify (t_seq std_vector t_string) ["a"; "b"]
     = Spec.canonical (t_seq std_vector t_string) ["a"; "b"]
  /\ stringify (t_map std_map t_string t_string) [("k0", "v0")]
     = "{k0: " ++ dquote ++ "v0" ++ dquote ++ "}"
  /\ Spec.canonical (t_map std_map t_string t_string) [("k0", "v0")]
     = "{" ++ dquote ++ "k0" ++ dquote ++ ": " ++ dquote ++ "v0" ++ dquote ++ "}"
  /\ stringify (t_set std_unordered_set t_bool) [true] = "{1}"
  /\ stringify (t_set std_multiset t_char) ["x"%char] = "{x}"
  /\ stringifiable (t_set std_set t_string) = true
  /\ stringifiable (t_map std_map t_string t_string) = true.
Proof.
  split; [exact stringify_seq|].
  split; [exact stringify_set|].
  split; [exact stringify_map|].
  repeat split.
Qed.

(** * Further properties *)

(** ** The array record *)

(** A loop that completes has run every body to completion. *)
Lemma for_each_inv (I : Type) (idx : list I) (body : I -> outcome trace)
  (tr : trace) :
  for_each idx body = Done tr ->
  forall i, In i idx -> exists a, body i = Done a.
Proof.
  revert tr; induction idx as [|j r IH]; intros tr H i Hi; [contradiction|].
  cbn [for_each] in H.
  destruct (body j) as [a| |] eqn:Hj; try discriminate H. cbn [bind] in H.
  destruct (for_each r body) as [b| |] eqn:Hr; try discriminate H.
  destruct Hi as [<-|Hi]; [now exists a | now apply (IH b)].
Qed.

(** A loop whose bodies are never rejected is never rejected. *)
Lemma for_each_not_ill_formed (I : Type) (idx : list I)
  (body : I -> outcome trace) :
  (forall i, body i <> IllFormed) -> for_each idx body <> IllFormed.
Proof.
  intros H. induction idx as [|j r IH]; [discriminate|].
  cbn [for_each]. specialize (H j).
  destruct (body j) as [a| |]; [|contradiction|discriminate]. cbn [bind].
  destruct (for_each r body) as [b| |]; [discriminate|contradiction|discriminate].
Qed.

Lemma range_in (lo hi i : N) : In i (range lo hi) <-> lo <= i < hi.
Proof.
  unfold range. rewrite List.in_map_iff. split.
  - intros (n & <- & Hn). apply List.in_seq in Hn. lia.
  - intros H. exists (N.to_nat i). split; [apply N2Nat.id|].
    apply List.in_seq. lia.
Qed.

(** The formatted elements of index [off], [off + 1], ... are those of the
    front of the storage. *)
Lemma map_nth_firstn (A : Type) (str : A -> string) (n : nat) :
  forall (cells : list A) (off : nat) (all : list A),
  (forall i, List.nth_error all (off + i) = List.nth_error cells i) ->
  (n <= List.length cells)%nat ->
  List.map (fun i => match List.nth_error all i with
                     | Some x => str x
                     | None => ""
                     end) (List.seq off n)
  = List.map str (List.firstn n cells).
Proof.
  induction n as [|n IH]; intros cells off all Hall Hn; [reflexivity|].
  destruct cells as [|x cells]; [simpl in Hn; lia|].
  cbn [List.seq List.map List.firstn]. f_equal.
  - specialize (Hall O). rewrite Nat.add_0_r in Hall. now rewrite Hall.
  - apply IH; [|simpl in Hn; lia].
    intros i. specialize (Hall (S i)). now rewrite Nat.add_succ_r in Hall.
Qed.

Section ArrayInBounds.

Variable a : Array.
Hypothesis Hlen : arr_len a <= N.of_nat (List.length (arr_val a)).

(** The formatted element of index [i]. *)
Let text (i : N) : string :=
  match List.nth_error (arr_val a) (N.to_nat i) with
  | Some x => stringify (arr_elem a) x
  | None => ""
  end.

Lemma Array_at_in (i : N) : i < arr_len a -> Array_at a i = Done (text i).
Proof.
  intros Hi. unfold Array_at, text.
  destruct (List.nth_error (arr_val a) (N.to_nat i)) eqn:E; [reflexivity|].
  apply List.nth_error_None in E. lia.
Qed.

(** The insertions between [" = {"] and ["}"] write the elements of index
    below [len], joined by [", "]. *)
Lemma Array_items :
  exists first others,
    (if 0 <? arr_len a
     then x <- Array_at a 0 ;; Done [Write x]
     else Done []) = Done first
    /\ for_each (range 1 (arr_len a))
         (fun i => x <- Array_at a i ;; Done [Write ", "; Write x])
       = Done others
    /\ "{" ++ written first ++ written others ++ "}"
       = Stringifier.sequence (stringify (arr_elem a))
           (List.firstn (N.to_nat (arr_len a)) (arr_val a)).
Proof.
  rewrite sequence_join.
  rewrite <- (@map_nth_firstn _ (stringify (arr_elem a)) (N.to_nat (arr_len a))
                (arr_val a) 0 (arr_val a)) by (try reflexivity; lia).
  destruct (N.ltb_spec 0 (arr_len a)) as [Hpos|Hz].
  - exists [Write (text 0)],
      (List.concat (List.map (fun i => [Write ", "; Write (text i)])
                      (range 1 (arr_len a)))).
    split; [now rewrite Array_at_in|]. split.
    + apply for_each_done. intros i Hi. apply range_in in Hi.
      now rewrite Array_at_in by lia.
    + rewrite written_concat.
      replace (N.to_nat (arr_len a)) with (S (N.to_nat (arr_len a) - 1)) by lia.
      cbn [List.seq List.map]. rewrite StrFacts.concat_cons.
      unfold range. replace (N.to_nat 1) with 1%nat by reflexivity.
      rewrite !List.map_map. cbn [written]. unfold text.
      autorewrite with str_norm. cbn [N.to_nat].
      erewrite List.map_ext; [reflexivity|]. intros n.
      rewrite Nat2N.id. cbn. now autorewrite with str_norm.
  - assert (arr_len a = 0) as -> by lia.
    exists [], []. repeat split.
Qed.

End ArrayInBounds.

(** What an enabled array statement writes when the storage holds the
    elements stated. *)
Lemma l_arr_enabled (t : target) (c : config) (env : environment)
  (s : call_site) (name : string) (u : ty) (v : list (val u)) (len : N) :
  stringifiable u = true -> outputEnabled c = true ->
  len <= N.of_nat (List.length v) ->
  output (l_arr t c env s name u v len)
  = Some (written (color_start c)
          ++ written (Prefixer_out t c env (Prefixer_at s))
          ++ written (type_name c)
          ++ name ++ " = "
          ++ stringify (t_seq std_list u) (List.firstn (N.to_nat len) v)
          ++ written (color_end c)
          ++ GL_NEWLINE).
Proof.
  intros Hwf Hon Hlen.
  unfold l_arr. rewrite Hwf. unfold Array_out. rewrite Hon.
  destruct (@Array_items (make_array name u v len (Prefixer_at s)) Hlen)
    as (first & others & Hf & Ho & Htext).
  rewrite Hf. cbn [bind]. rewrite Ho.
  cbn [bind output written make_array arr_name arr_prefixer].
  change (stringify (t_seq std_list u))
    with (Stringifier.sequence (stringify u)).
  cbn [make_array arr_elem arr_val arr_len] in Htext. rewrite <- Htext.
  rewrite !written_app. cbn [written]. cbn. autorewrite with str_norm.
  reflexivity.
Qed.

(** X1. With output enabled, an array record whose storage holds the [len]
    elements stated is the colour start, the prefix, ["type "] iff TYPE_NAME
    is in the mask, the name, [" = "], the first [len] elements written like a
    sequence container (in braces, joined by [", "], each by the dispatch at
    the element type), the colour end and the newline; with [len = 0] the
    braces are empty and no element is read. *)
Theorem array_record (t : target) (c : config) (env : environment)
  (s : call_site) (name : string) (u : ty) (v : list (val u)) (len : N)
  (Hwf : stringifiable u = true) (Hon : outputEnabled c = true)
  (Hlen : len <= N.of_nat (List.length v)) :
  output (l_arr t c env s name u v len)
  = Some (written (color_start c)
          ++ written (Prefixer_out t c env (Prefixer_at s))
          ++ written (type_name c)
          ++ name ++ " = "
          ++ stringify (t_seq std_list u) (List.firstn (N.to_nat len) v)
          ++ written (color_end c)
          ++ GL_NEWLINE)
  /\ (len = 0 -> stringify (t_seq std_list u) (List.firstn (N.to_nat len) v)
                 = "{}").
Proof.
  split; [|now intros ->].
  exact (@l_arr_enabled t c env s name u v len Hwf Hon Hlen).
Qed.

(** [l_arr(a, 3)] on [{0, 1, 2}] with no prefix, and with length 0. *)
Lemma array_record_witness :
  let c := {| curPrefixes := NONE; outputEnabled := true;
              colorEnabled := false |} in
  let env := {| now_ms := 0; localtime := None; thread_id := "1" |} in
  let s := CallSite "src/main.ext" 68 "main" in
  output (l_arr lp64 c env s "a" t_int [0; 1; 2]%Z 3)
  = Some ("a = {0, 1, 2}" ++ newline)
  /\ output (l_arr lp64 c env s "a" t_int [0; 1; 2]%Z 0)
     = Some ("a = {}" ++ newline).
Proof.
  intros c env s. split.
  - destruct (@array_record lp64 c env s "a" t_int [0; 1; 2]%Z 3
                eq_refl eq_refl ltac:(vm_compute; discriminate)) as (H & _).
    rewrite H. reflexivity.
  - destruct (@array_record lp64 c env s "a" t_int [0; 1; 2]%Z 0
                eq_refl eq_refl ltac:(vm_compute; discriminate)) as (H & _).
    rewrite H. reflexivity.
Defined.

(** X2. An array statement writes what the scalar-list statement writes for a
    [std::list] of the same name that holds the first [len] elements,
    whether output is enabled or not. *)
Theorem array_as_scalar_list (t : target) (c : config) (env : environment)
  (s : call_site) (name : string) (u : ty) (v : list (val u)) (len : N)
  (Hwf : stringifiable u = true)
  (Hlen : len <= N.of_nat (List.length v)) :
  output (l_arr t c env s name u v len)
  = output (l t c env s
              [Arg name (t_seq std_list u) (List.firstn (N.to_nat len) v)]).
Proof.
  destruct (outputEnabled c) eqn:Hon.
  - rewrite (@l_arr_enabled t c env s name u v len Hwf Hon Hlen).
    set (a0 := Arg name (t_seq std_list u) (List.firstn (N.to_nat len) v)).
    assert (Hl : output (l t c env s [a0])
                 = Some (written (color_start c)
                         ++ written (Prefixer_out t c env (Prefixer_at s))
                         ++ written (insert_chain c (GL_INTERNAL_LX a0))
                         ++ written (color_end c) ++ GL_NEWLINE)).
    { apply l_enabled; [reflexivity | simpl; now rewrite Hwf | exact Hon]. }
    rewrite Hl, insert_LX. unfold a0. unfold Spec.pair_text, type_name. cbn [arg_text arg_ty arg_val].
    destruct (has (curPrefixes c) TYPE_NAME); cbn [written];
      autorewrite with str_norm; reflexivity.
  - destruct (@disabled_traces t c env s Hon) as (Hl & Ha & _).
    rewrite Ha by exact Hwf. rewrite Hl; [reflexivity | simpl; lia |].
    simpl. now rewrite Hwf.
Qed.

Lemma array_as_scalar_list_witness :
  let c := {| curPrefixes := FILE .| LINE .| TYPE_NAME; outputEnabled := true;
              colorEnabled := true |} in
  let env := {| now_ms := 0; localtime := None; thread_id := "1" |} in
  let s := CallSite "src/main.ext" 68 "main" in
  output (l_arr lp64 c env s "a" t_string ["x"; "y"; "z"] 2)
  = output (l lp64 c env s [Arg "a" (t_seq std_list t_string) ["x"; "y"]]).
Proof.
  intros c env s.
  exact (@array_as_scalar_list lp64 c env s "a" t_string ["x"; "y"; "z"] 2
           eq_refl ltac:(vm_compute; discriminate)).
Defined.

(** X3. With output enabled, an array statement reads exactly the elements of
    index below [len]: it runs when the storage holds at least [len]
    elements, and reads outside the storage otherwise. *)
Theorem array_reads_below_len (t : target) (c : config) (env : environment)
  (s : call_site) (name : string) (u : ty) (v : list (val u)) (len : N)
  (Hwf : stringifiable u = true) (Hon : outputEnabled c = true) :
  ((exists tr, l_arr t c env s name u v len = Done tr)
   <-> len <= N.of_nat (List.length v))
  /\ (N.of_nat (List.length v) < len ->
      l_arr t c env s name u v len = Undefined).
Proof.
  assert (Hdone : (exists tr, l_arr t c env s name u v len = Done tr)
                  <-> len <= N.of_nat (List.length v)).
  { split.
    - intros (tr & Htr). unfold l_arr in Htr. rewrite Hwf in Htr.
      unfold Array_out in Htr. rewrite Hon in Htr.
      cbn [make_array arr_len] in Htr.
      destruct (N.le_gt_cases len (N.of_nat (List.length v))) as [H|H];
        [exact H|exfalso].
      assert (Hbad : Array_at (make_array name u v len (Prefixer_at s))
                       (N.of_nat (List.length v)) = Undefined).
      { unfold Array_at. cbn [make_array arr_val arr_elem]. rewrite Nat2N.id.
        match goal with
        | |- context [List.nth_error ?cells ?n] =>
            destruct (List.nth_error cells n) eqn:E0; [|reflexivity];
            assert (Hn : (n < List.length cells)%nat)
              by (apply List.nth_error_Some; rewrite E0; discriminate)
        end.
        exfalso. revert Hn. apply Nat.lt_irrefl. }
      destruct (N.eq_dec (N.of_nat (List.length v)) 0) as [E|E].
      + rewrite E in Hbad. destruct (N.ltb_spec 0 len); [|lia].
        rewrite Hbad in Htr. discriminate Htr.
      + destruct (if 0 <? len then _ else _) as [first| |];
          try discriminate Htr. cbn [bind] in Htr.
        destruct (for_each _ _) as [others| |] eqn:Ho; try discriminate Htr.
        destruct (for_each_inv _ _ Ho (N.of_nat (List.length v)))
          as (x & Hx); [apply range_in; lia|].
        rewrite Hbad in Hx. discriminate Hx.
    - intros H. unfold l_arr. rewrite Hwf. unfold Array_out. rewrite Hon.
      destruct (@Array_items (make_array name u v len (Prefixer_at s)) H)
        as (first & others & Hf & Ho & _).
      rewrite Hf. cbn [bind]. rewrite Ho. cbn [bind]. eauto. }
  split; [exact Hdone|].
  intros Hgt.
  destruct (l_arr t c env s name u v len) as [tr| |] eqn:E; [| |reflexivity].
  - assert (len <= N.of_nat (List.length v)) by (apply Hdone; eauto). lia.
  - exfalso. unfold l_arr in E. rewrite Hwf in E. unfold Array_out in E.
    rewrite Hon in E.
    assert (Hat : forall i, Array_at (make_array name u v len (Prefixer_at s)) i
                            <> IllFormed).
    { intros i. unfold Array_at. now destruct (List.nth_error _ _). }
    destruct (if 0 <? arr_len _ then _ else _) as [first| |] eqn:Ef.
    + cbn [bind] in E.
      destruct (for_each _ _) as [others| |] eqn:Ho; try discriminate E.
      revert Ho. apply for_each_not_ill_formed. intros i.
      specialize (Hat i). now destruct (Array_at _ i).
    + destruct (0 <? arr_len _); [|discriminate Ef].
      specialize (Hat 0). now destruct (Array_at _ 0).
    + discriminate E.
Qed.

Lemma array_reads_below_len_witness :
  let c := {| curPrefixes := NONE; outputEnabled := true;
              colorEnabled := false |} in
  let env := {| now_ms := 0; localtime := None; thread_id := "1" |} in
  let s := CallSite "src/main.ext" 68 "main" in
  l_arr lp64 c env s "a" t_int [0; 1; 2]%Z 4 = Undefined.
Proof.
  intros c env s.
  apply (@array_reads_below_len lp64 c env s "a" t_int [0; 1; 2]%Z 4
           eq_refl eq_refl).
  vm_compute. reflexivity.
Defined.

(** ** The matrix statement and its storage *)

Lemma row_major_iff (rows cols i j : N) :
  In (i, j) (Spec.row_major rows cols) <-> i < rows /\ j < cols.
Proof.
  unfold Spec.row_major. rewrite List.in_flat_map. split.
  - intros (i' & Hi & Hj). apply List.in_map_iff in Hj.
    destruct Hj as (j' & E & Hj). injection E as -> ->.
    apply range_in in Hi, Hj. lia.
  - intros (Hi & Hj). exists i. split; [apply range_in; lia|].
    apply List.in_map. apply range_in. lia.
Qed.

Lemma Matrix_at_not_ill_formed (m : Matrix) (i j : N) :
  Matrix_at m i j <> IllFormed.
Proof.
  unfold Matrix_at. destruct (List.nth_error (mat_val m) (N.to_nat i));
    [|discriminate].
  now destruct (List.nth_error _ _).
Qed.

Lemma Matrix_body_not_ill_formed (m : Matrix) : Matrix_body m <> IllFormed.
Proof.
  unfold Matrix_body. destruct (_ || _); [discriminate|].
  pose proof (@Matrix_at_not_ill_formed m 0 0) as H00.
  destruct (Matrix_at m 0 0) as [x00| |]; [|contradiction|discriminate].
  cbn [bind].
  assert (H0 : for_each (range 1 (mat_cols m)) (Matrix_first_row_entry m)
               <> IllFormed).
  { apply for_each_not_ill_formed. intros j. unfold Matrix_first_row_entry.
    pose proof (@Matrix_at_not_ill_formed m 0 j) as H.
    now destruct (Matrix_at m 0 j). }
  destruct (for_each _ (Matrix_first_row_entry m)) as [row0| |];
    [|contradiction|discriminate].
  cbn [bind].
  assert (H1 : for_each (range 1 (mat_rows m))
                 (fun i => for_each (range 0 (mat_cols m)) (Matrix_entry m i))
               <> IllFormed).
  { apply for_each_not_ill_formed. intros i. apply for_each_not_ill_formed.
    intros j. unfold Matrix_entry.
    pose proof (@Matrix_at_not_ill_formed m i j) as H.
    now destruct (Matrix_at m i j). }
  destruct (for_each _ (fun i => _)) as [others| |];
    [discriminate|contradiction|discriminate].
Qed.

(** A matrix whose body is written holds every element of index below
    [rows] and [cols]. *)
Lemma Matrix_body_done_in_bounds (m : Matrix) (tr : trace) :
  Matrix_body m = Done tr ->
  Spec.in_bounds (mat_elem m) (mat_val m) (mat_cols m) (mat_rows m) = true.
Proof.
  intros H. unfold Spec.in_bounds. apply List.forallb_forall.
  intros [i j] Hij. apply row_major_iff in Hij. destruct Hij as [Hi Hj].
  cbn [fst snd].
  assert (Hat : exists x, Matrix_at m i j = Done x).
  { unfold Matrix_body in H.
    destruct (N.leb_spec (mat_cols m) 0) as [Hc0|Hc0]; [lia|].
    destruct (N.leb_spec (mat_rows m) 0) as [Hr0|Hr0]; [lia|].
    cbn [orb] in H.
    destruct (Matrix_at m 0 0) as [x00| |] eqn:H00; try discriminate H.
    cbn [bind] in H.
    destruct (for_each _ (Matrix_first_row_entry m)) as [row0| |] eqn:Hrow0;
      try discriminate H.
    cbn [bind] in H.
    destruct (for_each _ (fun i => _)) as [others| |] eqn:Hothers;
      try discriminate H.
    destruct (N.eq_dec i 0) as [->|Hi0].
    - destruct (N.eq_dec j 0) as [->|Hj0]; [now exists x00|].
      destruct (for_each_inv _ _ Hrow0 j) as (a & Ha); [apply range_in; lia|].
      unfold Matrix_first_row_entry in Ha.
      destruct (Matrix_at m 0 j) as [x| |]; try discriminate Ha. now exists x.
    - destruct (for_each_inv _ _ Hothers i) as (a & Ha); [apply range_in; lia|].
      destruct (for_each_inv _ _ Ha j) as (b & Hb); [apply range_in; lia|].
      unfold Matrix_entry in Hb.
      destruct (Matrix_at m i j) as [x| |]; try discriminate Hb. now exists x. }
  destruct Hat as (x & Hx). rewrite Matrix_at_cell in Hx.
  now destruct (Spec.cell (mat_elem m) (mat_val m) i j).
Qed.

(** X4. With output enabled, a matrix statement reads exactly the elements
    [m[i][j]] with [i < rows] and [j < cols], and none when [cols] or [rows]
    is 0: it runs when the storage holds all of them and reads outside the
    storage otherwise. *)
Theorem matrix_reads_in_bounds (t : target) (c : config) (env : environment)
  (s : call_site) (name : string) (u : ty) (v : list (list (val u)))
  (cols rows : N)
  (Hwf : stringifiable u = true) (Hon : outputEnabled c = true) :
  ((exists tr, l_mat t c env s name u v cols rows = Done tr)
   <-> forall i j, i < rows -> j < cols -> Spec.cell u v i j <> None)
  /\ ((exists i j, i < rows /\ j < cols /\ Spec.cell u v i j = None) ->
      l_mat t c env s name u v cols rows = Undefined).
Proof.
  set (m := make_matrix name u v cols rows (Prefixer_at s)).
  assert (Hb : Spec.in_bounds u v cols rows = true
               <-> forall i j, i < rows -> j < cols -> Spec.cell u v i j <> None).
  { unfold Spec.in_bounds. rewrite List.forallb_forall. split.
    - intros H i j Hi Hj. specialize (H (i, j)). cbn [fst snd] in H.
      destruct (Spec.cell u v i j); [discriminate|].
      discriminate H. apply row_major_iff. now split.
    - intros H [i j] Hij. apply row_major_iff in Hij. cbn [fst snd].
      specialize (H i j (proj1 Hij) (proj2 Hij)).
      now destruct (Spec.cell u v i j). }
  assert (Hdone : (exists tr, l_mat t c env s name u v cols rows = Done tr)
                  <-> Spec.in_bounds u v cols rows = true).
  { unfold l_mat. rewrite Hwf. unfold Matrix_out. rewrite Hon. fold m. split.
    - intros (tr & Htr).
      destruct (Matrix_body m) as [body| |] eqn:Hbody; try discriminate Htr.
      exact (Matrix_body_done_in_bounds m Hbody).
    - intros Hin. destruct (@Matrix_body_spec m Hin) as (body & -> & _).
      cbn [bind]. eauto. }
  split; [now rewrite Hdone, Hb|].
  intros (i & j & Hi & Hj & Hnone).
  destruct (l_mat t c env s name u v cols rows) as [tr| |] eqn:E;
    [| |reflexivity]; exfalso.
  - assert (Hin : Spec.in_bounds u v cols rows = true) by (apply Hdone; eauto).
    rewrite Hb in Hin. now apply (Hin i j).
  - unfold l_mat in E. rewrite Hwf in E. unfold Matrix_out in E.
    rewrite Hon in E. fold m in E.
    pose proof (Matrix_body_not_ill_formed m) as Hm.
    destruct (Matrix_body m); [discriminate E | contradiction | discriminate E].
Qed.

Lemma matrix_reads_in_bounds_witness :
  let c := {| curPrefixes := NONE; outputEnabled := true;
              colorEnabled := false |} in
  let env := {| now_ms := 0; localtime := None; thread_id := "1" |} in
  let s := CallSite "src/main.ext" 68 "main" in
  l_mat lp64 c env s "m" t_int [[11; 12]; [21; 22]]%Z 2 3 = Undefined.
Proof.
  intros c env s.
  apply (@matrix_reads_in_bounds lp64 c env s "m" t_int
           [[11; 12]; [21; 22]]%Z 2 3 eq_refl eq_refl).
  exists 2, 0. repeat split.
Defined.

(** ** Colour *)

(** The shape of what an enabled statement writes: colour start, a record
    text that does not depend on the colour setting, colour end, newline. *)
Lemma statement_shape (t : target) (c : config) (env : environment)
  (s : call_site) :
  outputEnabled c = true ->
  (forall vs x, output (l t c env s vs) = Some x ->
     exists rec, forall b,
       output (l t (set_color_enabled b c) env s vs)
       = Some (written (color_start (set_color_enabled b c)) ++ rec
               ++ written (color_end (set_color_enabled b c)) ++ GL_NEWLINE))
  /\ (forall name u v len x,
        output (l_arr t c env s name u v len) = Some x ->
        exists rec, forall b,
          output (l_arr t (set_color_enabled b c) env s name u v len)
          = Some (written (color_start (set_color_enabled b c)) ++ rec
                  ++ written (color_end (set_color_enabled b c)) ++ GL_NEWLINE))
  /\ (forall name u v cols rows x,
        output (l_mat t c env s name u v cols rows) = Some x ->
        exists rec, forall b,
          output (l_mat t (set_color_enabled b c) env s name u v cols rows)
          = Some (written (color_start (set_color_enabled b c)) ++ rec
                  ++ written (color_end (set_color_enabled b c)) ++ GL_NEWLINE)).
Proof.
  intros Hon. split; [|split].
  - intros vs x. unfold l.
    destruct (l_body vs) as [ch|]; [|discriminate].
    destruct (forallb _ vs); [|discriminate]. intros _.
    exists (written (Prefixer_out t c env (Prefixer_at s))
            ++ written (insert_chain c ch)).
    intros b'. cbn [set_color_enabled outputEnabled]. rewrite Hon.
    cbn [output written]. rewrite !written_app. cbn [written].
    autorewrite with str_norm. reflexivity.
  - intros name u v len x. unfold l_arr.
    destruct (stringifiable u); [|discriminate].
    unfold Array_out. rewrite Hon.
    destruct (if 0 <? arr_len _ then _ else _) as [first| |];
      try discriminate.
    cbn [bind]. destruct (for_each _ _) as [others| |]; try discriminate.
    intros _.
    exists (written (Prefixer_out t c env (Prefixer_at s))
            ++ written (type_name c) ++ name ++ " = {"
            ++ written first ++ written others ++ "}").
    intros b'. cbn [set_color_enabled outputEnabled]. rewrite Hon.
    cbn [bind output written make_array arr_name arr_prefixer].
    rewrite !written_app.
    repeat (progress (cbn -[color_start color_end Prefixer_out type_name];
                      autorewrite with str_norm)).
    reflexivity.
  - intros name u v cols rows x. unfold l_mat.
    destruct (stringifiable u); [|discriminate].
    unfold Matrix_out. rewrite Hon.
    destruct (Matrix_body _) as [body| |]; try discriminate.
    intros _.
    exists (written (Prefixer_out t c env (Prefixer_at s))
            ++ written (type_name c) ++ name ++ ": " ++ written body).
    intros b'. cbn [set_color_enabled outputEnabled]. rewrite Hon.
    cbn [bind output written make_matrix mat_name mat_prefixer].
    rewrite !written_app.
    repeat (progress (cbn -[color_start color_end Prefixer_out type_name];
                      autorewrite with str_norm)).
    reflexivity.
Qed.

(** X5. Colour only wraps a record: what an enabled statement writes with
    colour on is the escape [ESC [0;31m], then what it writes with colour off
    without its final newline, then [ESC [0m] and the newline.  The prefix and
    the body do not depend on the colour setting. *)
Theorem color_wraps_record (t : target) (c : config) (env : environment)
  (s : call_site) (Hon : outputEnabled c = true) :
  let on := set_color_enabled true c in
  let off := set_color_enabled false c in
  let wrap rec := ESC ++ "[0;31m" ++ rec ++ ESC ++ "[0m" ++ GL_NEWLINE in
  (forall vs x, output (l t c env s vs) = Some x ->
     exists rec, output (l t off env s vs) = Some (rec ++ GL_NEWLINE)
                 /\ output (l t on env s vs) = Some (wrap rec))
  /\ (forall name u v len x,
        output (l_arr t c env s name u v len) = Some x ->
        exists rec,
          output (l_arr t off env s name u v len) = Some (rec ++ GL_NEWLINE)
          /\ output (l_arr t on env s name u v len) = Some (wrap rec))
  /\ (forall name u v cols rows x,
        output (l_mat t c env s name u v cols rows) = Some x ->
        exists rec,
          output (l_mat t off env s name u v cols rows)
          = Some (rec ++ GL_NEWLINE)
          /\ output (l_mat t on env s name u v cols rows) = Some (wrap rec)).
Proof.
  intros on off wrap. subst on off.
  destruct (@statement_shape t c env s Hon) as (Hl & Ha & Hm).
  split; [|split].
  - intros vs x Hx. destruct (Hl vs x Hx) as (rec & Hrec). exists rec.
    split; [rewrite (Hrec false) | rewrite (Hrec true)]; unfold wrap;
      cbn; now autorewrite with str_norm.
  - intros name u v len x Hx. destruct (Ha name u v len x Hx) as (rec & Hrec).
    exists rec.
    split; [rewrite (Hrec false) | rewrite (Hrec true)]; unfold wrap;
      cbn; now autorewrite with str_norm.
  - intros name u v cols rows x Hx.
    destruct (Hm name u v cols rows x Hx) as (rec & Hrec). exists rec.
    split; [rewrite (Hrec false) | rewrite (Hrec true)]; unfold wrap;
      cbn; now autorewrite with str_norm.
Qed.

(** [l(i)] with [i = 1], no prefix: colour off and on. *)
Lemma color_wraps_record_witness :
  let c := {| curPrefixes := NONE; outputEnabled := true;
              colorEnabled := false |} in
  let env := {| now_ms := 0; localtime := None; thread_id := "1" |} in
  let s := CallSite "src/main.ext" 68 "main" in
  exists rec,
    output (l lp64 (set_color_enabled false c) env s [Arg "i" t_int 1%Z])
    = Some (rec ++ GL_NEWLINE)
    /\ output (l lp64 (set_color_enabled true c) env s [Arg "i" t_int 1%Z])
       = Some (ESC ++ "[0;31m" ++ rec ++ ESC ++ "[0m" ++ GL_NEWLINE).
Proof.
  intros c env s.
  destruct (@color_wraps_record lp64 c env s eq_refl) as (Hl & _).
  exact (Hl [Arg "i" t_int 1%Z] _ eq_refl).
Defined.

(** ** Flags *)

(** X6. On a mask, [|] with a flag turns that flag on, [&] with a flag keeps
    that flag only, [^] with a flag toggles it, and each leaves the test of
    every other flag as it was; [^] with the same flag twice gives the mask
    back; NONE is neutral for [|] and [^] and absorbing for [&].  The flags
    of the header are the bits 0 to 5; the in-place operators compute the same
    values. *)
Theorem flag_operations (m f : prefix) (k j : N) :
  has (m .| N.shiftl 1 k) (N.shiftl 1 j) = has m (N.shiftl 1 j) || (j =? k)
  /\ has (m .& N.shiftl 1 k) (N.shiftl 1 j) = has m (N.shiftl 1 j) && (j =? k)
  /\ has (m .^ N.shiftl 1 k) (N.shiftl 1 j)
     = xorb (has m (N.shiftl 1 j)) (j =? k)
  /\ (m .^ f) .^ f = m
  /\ m .| NONE = m /\ m .^ NONE = m /\ m .& NONE = NONE
  /\ (m .| f) .& f = f
  /\ prefix_or_assign m f = m .| f
  /\ prefix_and_assign m f = m .& f
  /\ prefix_xor_assign m f = m .^ f
  /\ [FILE; LINE; FUNCTION; TIME; THREAD; TYPE_NAME]
     = List.map (N.shiftl 1) [0; 1; 2; 3; 4; 5].
Proof.
  assert (Hbit : N.testbit (N.shiftl 1 k) j = (j =? k)).
  { rewrite N.shiftl_1_l, N.pow2_bits_eqb. apply N.eqb_sym. }
  rewrite !has_testbit. unfold prefix_or, prefix_and, prefix_xor, NONE.
  rewrite N.lor_spec, N.land_spec, N.lxor_spec, Hbit.
  repeat split.
  - rewrite N.lxor_assoc, N.lxor_nilpotent. apply N.lxor_0_r.
  - apply N.lor_0_r.
  - apply N.lxor_0_r.
  - apply N.land_0_r.
  - apply N.bits_inj. intros n. rewrite N.land_spec, N.lor_spec.
    now destruct (N.testbit m n), (N.testbit f n).
Qed.

(** ** The prefix and its environment *)

Lemma queries_app (a b : trace) : queries (a ++ b) = (queries a ++ queries b)%list.
Proof. apply List.filter_app. Qed.

Lemma insert_chain_effects (c : config) (ch : chain) :
  queries (insert_chain c ch) = [] /\ constructed (insert_chain c ch) = [].
Proof.
  unfold insert_chain. induction ch as [|o ch [IHq IHc]]; [now split|].
  cbn [List.map List.concat]. rewrite queries_app, constructed_app, IHq, IHc.
  destruct o; cbn; unfold type_name;
    try destruct (has (curPrefixes c) TYPE_NAME); now split.
Qed.

(** What the insertion of a [Prefixer] asks of the system. *)
Lemma Prefixer_out_effects (t : target) (c : config) (env : environment)
  (p : Prefixer) :
  queries (Prefixer_out t c env p)
  = ((if has (curPrefixes c) TIME then [ClockNow; LocalTime] else [])
     ++ (if has (curPrefixes c) THREAD then [ThreadId] else []))%list
  /\ constructed (Prefixer_out t c env p) = [].
Proof.
  unfold Prefixer_out, Prefixer_blocks, block_FILE, block_LINE, block_FUNCTION,
    block_TIME, block_THREAD, block_final.
  destruct (has (curPrefixes c) FILE), (has (curPrefixes c) LINE),
    (has (curPrefixes c) FUNCTION), (has (curPrefixes c) TIME),
    (has (curPrefixes c) THREAD), (localtime env); now split.
Qed.

(** X7. Inserting a [Prefixer] samples the clock and converts to local time
    iff TIME is in the mask, also when the conversion then fails, and asks
    for the thread id iff THREAD is in the mask.  An enabled scalar-list
    statement constructs exactly one [Prefixer], that of its call site, and
    asks the system for nothing more than that insertion does. *)
Theorem statement_queries (t : target) (c : config) (env : environment)
  (s : call_site) (vs : list arg)
  (Har : (1 <= List.length vs <= 16)%nat)
  (Hwf : forallb (fun v => stringifiable (arg_ty v)) vs = true)
  (Hon : outputEnabled c = true) :
  let asked :=
    ((if has (curPrefixes c) TIME then [ClockNow; LocalTime] else [])
     ++ (if has (curPrefixes c) THREAD then [ThreadId] else []))%list in
  queries (Prefixer_out t c env (Prefixer_at s)) = asked
  /\ exists tr, l t c env s vs = Done tr
                /\ constructed tr = [Prefixer_at s]
                /\ queries tr = asked.
Proof.
  intros asked.
  destruct (@Prefixer_out_effects t c env (Prefixer_at s)) as (Hq & Hc).
  split; [exact Hq|].
  unfold l. destruct (l_body vs) as [ch|] eqn:Hb;
    [|exfalso; now apply (proj2 (l_body_arity vs))].
  rewrite Hwf, Hon. eexists. split; [reflexivity|].
  destruct (insert_chain_effects c ch) as (Hiq & Hic).
  cbn [List.app constructed queries filter is_query].
  fold (queries (color_start c ++ Prefixer_out t c env (Prefixer_at s)
                 ++ insert_chain c ch ++ color_end c ++ [Write GL_NEWLINE])).
  rewrite !constructed_app, !queries_app, Hq, Hc, Hiq, Hic.
  unfold color_start, color_end. destruct (colorEnabled c); cbn;
    rewrite ?List.app_nil_r; now split.
Qed.

Lemma statement_queries_witness :
  let c := {| curPrefixes := TIME; outputEnabled := true;
              colorEnabled := false |} in
  let env := {| now_ms := 0; localtime := None; thread_id := "1" |} in
  let s := CallSite "src/main.ext" 68 "main" in
  exists tr, l lp64 c env s [Arg "i" t_int 1%Z] = Done tr
             /\ constructed tr = [Prefixer_at s]
             /\ queries tr = [ClockNow; LocalTime].
Proof.
  intros c env s.
  destruct (@statement_queries lp64 c env s [Arg "i" t_int 1%Z]
              ltac:(simpl; lia) eq_refl eq_refl) as (_ & H).
  exact H.
Defined.

(** X8. When the insertion of a [Prefixer] returns, [cnt] is the number of
    fields it has written, at most 5: the 32-bit counter never wraps. *)
Theorem cnt_counts_fields (t : target) (c : config) (env : environment)
  (p : Prefixer) :
  Prefixer_cnt t c env p
  = N.of_nat (List.length (Spec.fields_produced (curPrefixes c) env))
  /\ Prefixer_cnt t c env p <= 5.
Proof.
  unfold Prefixer_cnt, Prefixer_blocks, block_FILE, block_LINE, block_FUNCTION,
    block_TIME, block_THREAD, Spec.fields_produced, Spec.all_fields.
  cbn [filter Spec.flag Spec.is_TIME negb orb].
  destruct (has (curPrefixes c) FILE), (has (curPrefixes c) LINE),
    (has (curPrefixes c) FUNCTION), (has (curPrefixes c) TIME),
    (has (curPrefixes c) THREAD), (localtime env);
    split; try reflexivity; vm_compute; discriminate.
Qed.

(** X9. With neither TIME nor THREAD in the mask, nothing a statement does
    depends on the clock, the time zone or the thread: the three statements
    leave the same trace in any two environments. *)
Theorem environment_independence (t : target) (c : config)
  (env env' : environment) (s : call_site)
  (Htime : has (curPrefixes c) TIME = false)
  (Hthread : has (curPrefixes c) THREAD = false) :
  (forall p, Prefixer_out t c env p = Prefixer_out t c env' p)
  /\ (forall vs, l t c env s vs = l t c env' s vs)
  /\ (forall name u v len,
        l_arr t c env s name u v len = l_arr t c env' s name u v len)
  /\ (forall name u v cols rows,
        l_mat t c env s name u v cols rows
        = l_mat t c env' s name u v cols rows).
Proof.
  assert (Hp : forall p, Prefixer_out t c env p = Prefixer_out t c env' p).
  { intros p. unfold Prefixer_out, Prefixer_blocks, block_TIME, block_THREAD.
    now rewrite Htime, Hthread. }
  split; [exact Hp|]. split; [|split].
  - intros vs. unfold l. now rewrite Hp.
  - intros name u v len. unfold l_arr, Array_out.
    cbn [make_array arr_prefixer]. now rewrite Hp.
  - intros name u v cols rows. unfold l_mat, Matrix_out.
    cbn [make_matrix mat_prefixer]. now rewrite Hp.
Qed.

Lemma environment_independence_witness :
  let c := {| curPrefixes := FILE .| LINE .| FUNCTION .| TYPE_NAME;
              outputEnabled := true; colorEnabled := true |} in
  let env := {| now_ms := 0; localtime := None; thread_id := "1" |} in
  let env' := {| now_ms := 1234567; localtime := Some (Tm 10 2 13);
                 thread_id := "140" |} in
  let s := CallSite "src/main.ext" 68 "main" in
  l lp64 c env s [Arg "i" t_int 1%Z] = l lp64 c env' s [Arg "i" t_int 1%Z].
Proof.
  intros c env env' s.
  destruct (@environment_independence lp64 c env env' s eq_refl eq_refl)
    as (_ & Hl & _).
  apply Hl.
Defined.

(** X10. In the configuration the header starts with (FILE and LINE, output
    enabled, no colour), a scalar-list record is the file name, [":"], the
    line number, [": "], the pairs [text = value] joined by [", "], and a
    newline. *)
Theorem initial_record (t : target) (env : environment) (s : call_site)
  (vs : list arg)
  (Har : (1 <= List.length vs <= 16)%nat)
  (Hwf : forallb (fun v => stringifiable (arg_ty v)) vs = true) :
  output (l t initial env s vs)
  = Some (file_name t (site_file s) ++ ":" ++ dec_Z (site_line s) ++ ": "
          ++ String.concat ", "
               (List.map (fun v => arg_text v ++ " = "
                                   ++ stringify (arg_ty v) (arg_val v)) vs)
          ++ newline).
Proof.
  destruct (List.length vs) as [|n] eqn:Hn; [lia|].
  destruct (@GL_INTERNAL_L_join initial n vs Hn) as (ch & Hch & Htext & _).
  assert (Hb : l_body vs = Some ch).
  { rewrite l_body_dispatch by lia. now rewrite Hn. }
  rewrite (@l_enabled t initial env s vs ch Hb Hwf eq_refl), Htext.
  rewrite (List.map_ext (Spec.pair_text initial)
             (fun v => arg_text v ++ " = " ++ stringify (arg_ty v) (arg_val v)))
    by reflexivity.
  repeat (progress (cbn -[file_name dec_Z String.concat];
                    autorewrite with str_norm)).
  reflexivity.
Qed.

Lemma initial_record_witness :
  let env := {| now_ms := 0; localtime := None; thread_id := "1" |} in
  let s := CallSite "src/main.ext" 68 "main" in
  output (l lp64 initial env s [Arg "i" t_int 1%Z])
  = Some ("main.ext:68: i = 1" ++ newline).
Proof.
  intros env s.
  rewrite (@initial_record lp64 env s [Arg "i" t_int 1%Z]
             ltac:(simpl; lia) eq_refl).
  reflexivity.
Defined.

(** ** The file name of a joined path *)

Lemma mem_app_sep (c : ascii) (a b : string) :
  Str.mem c (a ++ String c b) = true.
Proof.
  induction a as [|x a IH]; simpl.
  - now rewrite Ascii.eqb_refl.
  - rewrite IH. apply orb_true_r.
Qed.

(** A string splits in one way only at a separator that no other follows. *)
Lemma last_split_unique (c : ascii) (pre : string) :
  forall dir fn base,
  pre ++ String c fn = dir ++ String c base ->
  Str.mem c fn = false -> Str.mem c base = false -> fn = base.
Proof.
  induction pre as [|x pre IH]; intros [|y dir] fn base E Hfn Hbase;
    simpl in E.
  - now injection E.
  - injection E as _ E2. subst fn. now rewrite mem_app_sep in Hfn.
  - injection E as _ E2. subst base. now rewrite mem_app_sep in Hbase.
  - injection E as _ E2. now apply (IH dir).
Qed.

(** X11. The FILE field inverts the joining of a path: for a directory
    part [dir] and a name [base] that holds no separator, the file name of
    [dir], separator, [base] is [base]; the file name of a path without
    separator is the path; so a path that ends in a separator has the empty
    file name, and taking the file name twice changes nothing. *)
Theorem file_name_of_join (t : target) (dir base : string)
  (Hlen : strlen (dir ++ String (path_sep t) base) <= size_max t)
  (Hbase : Str.mem (path_sep t) base = false) :
  file_name t (dir ++ String (path_sep t) base) = base
  /\ file_name t base = base
  /\ file_name t (dir ++ String (path_sep t) "") = ""
  /\ file_name t (file_name t (dir ++ String (path_sep t) base))
     = file_name t (dir ++ String (path_sep t) base).
Proof.
  assert (Hlb : strlen base <= size_max t).
  { unfold strlen in *. rewrite StrFacts.app_length in Hlen. simpl in Hlen. lia. }
  assert (Hle : strlen (dir ++ String (path_sep t) "") <= size_max t).
  { unfold strlen in *. rewrite StrFacts.app_length in *. simpl in *. lia. }
  assert (Hjoin : forall b, strlen (dir ++ String (path_sep t) b) <= size_max t ->
                            Str.mem (path_sep t) b = false ->
                            file_name t (dir ++ String (path_sep t) b) = b).
  { intros b Hl Hb.
    destruct (@file_name_spec t _ Hl) as ([(Hno & _)|(pre & Hpre)] & Hfn).
    - now rewrite mem_app_sep in Hno.
    - symmetry in Hpre. exact (@last_split_unique _ _ _ _ _ Hpre Hfn Hb). }
  assert (Hplain : file_name t base = base).
  { destruct (@file_name_spec t base Hlb) as ([(_ & H)|(pre & Hpre)] & _);
      [exact H|].
    rewrite Hpre, mem_app_sep in Hbase. discriminate Hbase. }
  repeat split.
  - now apply Hjoin.
  - exact Hplain.
  - now apply Hjoin.
  - rewrite (Hjoin base Hlen Hbase). exact Hplain.
Qed.

Lemma file_name_of_join_witness :
  file_name lp64 ("/usr/src" ++ String (path_sep lp64) "main.ext") = "main.ext"
  /\ file_name lp64 ("/usr/src" ++ String (path_sep lp64) "") = "".
Proof.
  destruct (@file_name_of_join lp64 "/usr/src" "main.ext"
              ltac:(vm_compute; discriminate) eq_refl) as (H1 & _ & H3 & _).
  now split.
Defined.

(** ** Const qualification *)

(** X12. Const qualification changes what is written exactly for the types
    that have a specialisation: a const [bool] is written [1] or [0], a const
    character bare, a const C string or [std::string] without quotes, all by
    the primary template, while at a type where the primary template is
    selected anyway const changes nothing.  For such element types a set is
    written like a sequence container of the same elements, and a priority
    queue like the stack whose top is the same element. *)
Theorem const_and_dispatch :
  (forall u x, primary u = true -> stringify (t_const u) x = stringify u x)
  /\ (forall b, stringify (t_const t_bool) b = (if b then "1" else "0")
                /\ stringify (t_const t_bool) b <> stringify t_bool b)
  /\ (forall ch : ascii,
        stringify (t_const t_char) ch = String ch ""
        /\ stringify (t_const t_signed_char) ch = String ch ""
        /\ stringify (t_const t_unsigned_char) ch = String ch ""
        /\ stringify t_char ch = "'" ++ String ch "" ++ "'")
  /\ (forall s : string,
        stringify (t_const t_char_ptr) s = s
        /\ stringify (t_const t_const_char_ptr) s = s
        /\ stringify (t_const t_string) s = s
        /\ stringify t_string s = dquote ++ s ++ dquote)
  /\ (forall u ks kq c, primary u = true ->
        stringify (t_set ks u) c = stringify (t_seq kq u) c)
  /\ (forall u c, primary u = true ->
        stringify (t_priority_queue u) c = stringify (t_stack u) (List.rev c)).
Proof.
  assert (Hp : forall u x, primary u = true -> insert u x = stringify u x).
  { intros u x H. destruct u; try discriminate H; reflexivity. }
  split; [exact Hp|].
  split; [intros []; split; [reflexivity | discriminate | reflexivity | discriminate]|].
  split; [intros ch; repeat split|].
  split; [intros s; repeat split|].
  split.
  - intros u ks kq c H. cbn [stringify]. rewrite !sequence_join.
    now rewrite (List.map_ext (insert u) (stringify u) (fun x => Hp u x H)).
  - intros u c H. cbn [stringify]. rewrite !stack_cases.
    unfold Stringifier.back, Stringifier.front. rewrite List.rev_involutive.
    destruct c as [|x [|y r]]; [reflexivity | cbn; now rewrite Hp |].
    destruct_rev a others E.
    destruct others as [|b others];
      [apply (f_equal (@List.length _)) in E; rewrite List.length_rev in E;
       discriminate E|].
    cbn. now rewrite Hp.
Qed.

Lemma const_and_dispatch_witness :
  stringify (t_set std_set t_int) [1; 2; 3]%Z
  = stringify (t_seq std_vector t_int) [1; 2; 3]%Z
  /\ stringify (t_priority_queue t_int) [4; 2; 3]%Z
     = stringify (t_stack t_int) [3; 2; 4]%Z.
Proof.
  destruct const_and_dispatch as (_ & _ & _ & _ & Hset & Hpq).
  split; [apply Hset; reflexivity | apply (Hpq t_int [4; 2; 3]%Z); reflexivity].
Defined.

(** ** The setters *)

(** X14. Each setter changes what its own getter returns and nothing else, the
    last value set is the one read, and setters of different fields can be
    called in either order.  In particular disabling output and enabling it
    again leaves every statement as it was. *)
Theorem setters_are_independent (c : config) (p q : prefix) (e e' : bool) :
  is_output_enabled (set_output_enabled e c) = e
  /\ is_color_enabled (set_color_enabled e c) = e
  /\ get_prefixes (set_output_enabled e c) = get_prefixes c
  /\ get_prefixes (set_color_enabled e c) = get_prefixes c
  /\ is_output_enabled (set_prefixes p c) = is_output_enabled c
  /\ is_output_enabled (set_color_enabled e c) = is_output_enabled c
  /\ is_color_enabled (set_prefixes p c) = is_color_enabled c
  /\ is_color_enabled (set_output_enabled e c) = is_color_enabled c
  /\ set_prefixes q (set_prefixes p c) = set_prefixes q c
  /\ set_output_enabled e' (set_output_enabled e c) = set_output_enabled e' c
  /\ set_color_enabled e' (set_color_enabled e c) = set_color_enabled e' c
  /\ set_output_enabled e (set_prefixes p c)
     = set_prefixes p (set_output_enabled e c)
  /\ set_color_enabled e (set_prefixes p c)
     = set_prefixes p (set_color_enabled e c)
  /\ set_color_enabled e' (set_output_enabled e c)
     = set_output_enabled e (set_color_enabled e' c)
  /\ set_output_enabled (is_output_enabled c)
       (set_output_enabled (negb (is_output_enabled c)) c) = c
  /\ set_prefixes (get_prefixes c) c = c.
Proof. destruct c. repeat split. Qed.

(** ** The TIME field *)

Lemma two_digits_below_100 (n : N) :
  n < 100 -> two_digits n = dec_N (n / 10) ++ dec_N (n mod 10).
Proof.
  intros H.
  assert (Hall : forallb (fun k => String.eqb (two_digits k)
                                     (dec_N (k / 10) ++ dec_N (k mod 10)))
                   (range 0 100) = true) by (vm_compute; reflexivity).
  rewrite List.forallb_forall in Hall.
  apply String.eqb_eq, Hall, range_in. lia.
Qed.

Lemma three_digits_below_1000 (n : N) :
  n < 1000 ->
  setw 3 "0"%char (dec_Z (Z.of_N n))
  = dec_N (n / 100) ++ dec_N (n / 10 mod 10) ++ dec_N (n mod 10).
Proof.
  intros H.
  assert (Hall : forallb (fun k => String.eqb
                                     (setw 3 "0"%char (dec_Z (Z.of_N k)))
                                     (dec_N (k / 100) ++ dec_N (k / 10 mod 10)
                                      ++ dec_N (k mod 10)))
                   (range 0 1000) = true) by (vm_compute; reflexivity).
  rewrite List.forallb_forall in Hall.
  apply String.eqb_eq, Hall, range_in. lia.
Qed.

Lemma digit_length (d : N) : d < 10 -> String.length (dec_N d) = 1%nat.
Proof.
  intros H.
  assert (Hall : forallb (fun k => Nat.eqb (String.length (dec_N k)) 1)
                   (range 0 10) = true) by (vm_compute; reflexivity).
  rewrite List.forallb_forall in Hall.
  apply Nat.eqb_eq, Hall, range_in. lia.
Qed.

(** X15. For a clock not before the epoch and a local time within the ranges
    of [std::tm], the TIME field is the twelve characters [HH:MM:SS.mmm]: two
    decimal digits for each of the hour, the minute and the second, and the
    milliseconds within the second as three digits, padded with zeros. *)
Theorem time_field_layout (t : target) (c : config) (env : environment)
  (p : Prefixer) (local : tm)
  (Hmask : curPrefixes c = TIME)
  (Hlocal : localtime env = Some local)
  (Hclock : (0 <= now_ms env)%Z)
  (Hh : tm_hour local < 24) (Hm : tm_min local < 60) (Hs : tm_sec local <= 60) :
  let ms := Z.to_N (now_ms env mod 1000)%Z in
  let d := dec_N in
  let field :=
    d (tm_hour local / 10) ++ d (tm_hour local mod 10) ++ ":"
    ++ d (tm_min local / 10) ++ d (tm_min local mod 10) ++ ":"
    ++ d (tm_sec local / 10) ++ d (tm_sec local mod 10) ++ "."
    ++ d (ms / 100) ++ d (ms / 10 mod 10) ++ d (ms mod 10) in
  written (Prefixer_out t c env p) = field ++ ": "
  /\ String.length field = 12%nat.
Proof.
  intros ms d field.
  assert (Hms : ms < 1000).
  { unfold ms. pose proof (Z.mod_pos_bound (now_ms env) 1000). lia. }
  assert (Htext : written (Prefixer_out t c env p)
                  = put_time local ++ "."
                    ++ setw 3 "0"%char (dec_Z (ms_count env)) ++ ": ").
  { unfold Prefixer_out, Prefixer_blocks, block_FILE, block_LINE,
      block_FUNCTION, block_TIME, block_THREAD, block_final.
    rewrite Hmask, Hlocal. cbn -[setw put_time dec_Z].
    now autorewrite with str_norm. }
  assert (Hrem : ms_count env = Z.of_N ms).
  { unfold ms_count, ms. rewrite Z.rem_mod_nonneg by lia.
    pose proof (Z.mod_pos_bound (now_ms env) 1000). lia. }
  split.
  - rewrite Htext, Hrem, three_digits_below_1000 by exact Hms.
    unfold put_time. rewrite !two_digits_below_100 by lia.
    unfold field, d.
    repeat (progress (cbn -[dec_N N.div N.modulo]; autorewrite with str_norm)).
    reflexivity.
  - unfold field, d. rewrite !StrFacts.app_length. cbn [String.length].
    rewrite !digit_length; [reflexivity | | | | | | | | |];
      try (apply N.mod_lt; lia);
      try (apply N.Div0.div_lt_upper_bound; lia).
Qed.

Lemma time_field_layout_witness :
  let c := {| curPrefixes := TIME; outputEnabled := true;
              colorEnabled := false |} in
  let env := {| now_ms := 1234007; localtime := Some (Tm 9 2 13);
                thread_id := "1" |} in
  written (Prefixer_out lp64 c env (MkPrefixer "src/main.ext" 68 "main"))
  = "09:02:13.007: ".
Proof.
  intros c env.
  destruct (@time_field_layout lp64 c env (MkPrefixer "src/main.ext" 68 "main")
              (Tm 9 2 13) eq_refl eq_refl
              ltac:(vm_compute; discriminate) eq_refl eq_refl
              ltac:(vm_compute; discriminate)) as (H & _).
  rewrite H. reflexivity.
Defined.

(** ** The loop of [test/src/prefixes.cpp] *)

(** X16. [PERM(n, p)] runs its body for [n = NONE] and for [n = p] and then
    ends, for every [p] with [0 < p < 2^31], so for each flag; with
    [p = NONE] its condition never fails. *)
Theorem PERM_visits_none_and_flag (p : prefix) (fuel : nat) :
  (0 < p -> p < 2 ^ 31 ->
   PrefixesTest.PERM (3 + fuel) p NONE = Some [NONE; p])
  /\ PrefixesTest.PERM fuel NONE NONE = None.
Proof.
  split.
  - intros Hpos Hlt. unfold NONE.
    change (3 + fuel)%nat with (S (S (S fuel))). cbn [PrefixesTest.PERM].
    rewrite N.add_0_l, (N.mod_small p) by lia.
    destruct (N.leb_spec 0 p); [|lia].
    destruct (N.leb_spec p p); [|lia].
    rewrite (N.mod_small (p + p)) by lia.
    destruct (N.leb_spec (p + p) p); [lia|]. reflexivity.
  - induction fuel as [|n IH]; [reflexivity|].
    cbn [PrefixesTest.PERM]. unfold NONE in *. cbn. now rewrite IH.
Qed.

Lemma PERM_visits_none_and_flag_witness :
  PrefixesTest.PERM 3 TIME NONE = Some [NONE; TIME].
Proof.
  apply (proj1 (PERM_visits_none_and_flag TIME 0)); vm_compute; reflexivity.
Defined.

Lemma run_never_fails (t : target) (env : environment) (file : string)
  (ps : list prefix) :
  forall st, exists st',
    PrefixesTest.run t env file ps st = Some st'
    /\ List.length (snd st') = (List.length (snd st) + 3 * List.length ps)%nat
    /\ (List.forallb is_done (snd st) = true ->
        List.forallb is_done (snd st') = true)
    /\ (ps <> [] -> curPrefixes (fst st') = List.last ps NONE).
Proof.
  induction ps as [|p r IH]; intros st.
  - exists st. repeat split; [simpl; lia | tauto | intros H; now contradiction H].
  - cbn [PrefixesTest.run]. unfold PrefixesTest.body.
    cbn [get_prefixes set_prefixes curPrefixes]. rewrite N.eqb_refl.
    cbn [negb].
    match goal with |- context [PrefixesTest.run t env file r ?s] =>
      destruct (IH s) as (st' & Hrun & Hlen & Hdone & Hlast) end.
    exists st'. split; [exact Hrun|]. split; [|split].
    + rewrite Hlen. cbn [snd]. rewrite List.length_app. simpl. lia.
    + intros H. apply Hdone. cbn [snd]. rewrite List.forallb_app, H.
      unfold l, l_arr, l_mat, Array_out, Matrix_out, set_prefixes.
      cbn [outputEnabled].
      destruct (outputEnabled (fst st));
        cbn -[Prefixer_out color_start color_end type_name]; reflexivity.
    + intros _. destruct r as [|q r]; [|now apply Hlast].
      cbn in Hrun. injection Hrun as <-. reflexivity.
Qed.

(** X17. The six nested loops of the test reach their body once for each of
    the 64 combinations of the six flags, and the check that [get_prefixes]
    returns the mask just set never fails: the loops run 192 statements and
    leave all six flags set; each of the statements is well formed and reads
    inside its array. *)
Theorem test_enumerates_all_masks (t : target) (env : environment)
  (file : string) (c : config) :
  List.length PrefixesTest.masks = 64%nat
  /\ List.NoDup PrefixesTest.masks
  /\ (forall m, In m PrefixesTest.masks <-> m < 64)
  /\ exists st,
       PrefixesTest.run t env file PrefixesTest.masks (c, []) = Some st
       /\ List.length (snd st) = 192%nat
       /\ List.forallb is_done (snd st) = true
       /\ curPrefixes (fst st)
          = FILE .| LINE .| FUNCTION .| TIME .| THREAD .| TYPE_NAME.
Proof.
  assert (Hlen : List.length PrefixesTest.masks = 64%nat)
    by (vm_compute; reflexivity).
  assert (Hin : forall m, In m PrefixesTest.masks <-> m < 64).
  { intros m. split.
    - intros H.
      assert (Hall : List.forallb (fun k => k <? 64) PrefixesTest.masks = true)
        by (vm_compute; reflexivity).
      rewrite List.forallb_forall in Hall. apply N.ltb_lt. now apply Hall.
    - intros H.
      assert (Hall : List.forallb
                       (fun k => List.existsb (N.eqb k) PrefixesTest.masks)
                       (range 0 64) = true)
        by (vm_compute; reflexivity).
      rewrite List.forallb_forall in Hall.
      specialize (Hall m (proj2 (range_in 0 64 m) (conj (N.le_0_l m) H))).
      apply List.existsb_exists in Hall. destruct Hall as (k & Hk & E).
      apply N.eqb_eq in E. now subst k. }
  split; [exact Hlen|]. split; [|split; [exact Hin|]].
  - apply List.NoDup_incl_NoDup with (l := List.map N.of_nat (List.seq 0 64)).
    + apply List.NoDup_map_inv with (f := N.to_nat).
      rewrite List.map_map.
      rewrite (List.map_ext _ id) by (intros n; apply Nat2N.id).
      rewrite List.map_id. apply List.seq_NoDup.
    + rewrite List.length_map, List.length_seq.
      unfold prefix in *. rewrite Hlen. apply le_n.
    + intros m Hm. apply Hin. apply List.in_map_iff in Hm.
      destruct Hm as (n & <- & Hn). apply List.in_seq in Hn. lia.
  - destruct (run_never_fails t env file PrefixesTest.masks (c, []))
      as (st & Hrun & Hl & Hdone & Hlast).
    exists st. split; [exact Hrun|]. split; [|split].
    + rewrite Hl, Hlen. reflexivity.
    + now apply Hdone.
    + rewrite Hlast; [vm_compute; reflexivity|].
      intros E. rewrite E in Hlen. discriminate.
Qed.

(** ** The driver [test/src/run_all.cpp] *)

Lemma find_last_of_spec (c : ascii) (s : string) :
  match RunAll.find_last_of c s with
  | Some i =>
      s = String.substring 0 i s ++ String c (Str.drop (i + 1) s)
      /\ Str.mem c (Str.drop (i + 1) s) = false
  | None => Str.mem c s = false
  end.
Proof.
  induction s as [|x s IH]; [reflexivity|].
  cbn [RunAll.find_last_of].
  destruct (RunAll.find_last_of c s) as [i|].
  - destruct IH as (E & Hm). cbn. split; [now rewrite <- E | exact Hm].
  - cbn [Str.mem]. rewrite IH, orb_false_r.
    destruct (Ascii.eqb_spec x c) as [->|_]; [|reflexivity].
    cbn. split; [reflexivity | exact IH].
Qed.

(** Every command of the loop is made of the directory and an entry that is
    not skipped. *)
Lemma loop_executed (h : RunAll.host) (t : target) (dir file : string)
  (files : list string) (cmd : string) :
  In cmd (RunAll.executed (fst (RunAll.loop h t dir file files))) ->
  exists f, In f files /\ RunAll.runs file f = true
            /\ cmd = RunAll.command t dir f.
Proof.
  induction files as [|f r IH]; cbn [RunAll.loop]; [intros []|].
  destruct (RunAll.runs file f) eqn:Hf.
  - destruct (RunAll.system h (RunAll.command t dir f) =? -1)%Z;
      [|destruct (negb _)].
    + cbn. intros [<-|[]]. exists f. repeat split; [now left | exact Hf].
    + cbn. intros [<-|[]]. exists f. repeat split; [now left | exact Hf].
    + destruct (RunAll.loop h t dir file r) as [ev code]. cbn.
      intros [<-|H].
      * exists f. repeat split; [now left | exact Hf].
      * destruct (IH H) as (g & Hg & Hr & ->). exists g.
        repeat split; [now right | exact Hr].
  - intros H. destruct (IH H) as (g & Hg & Hr & ->). exists g.
    repeat split; [now right | exact Hr].
Qed.

(** X18. The driver splits its own path at the last separator: the file part
    holds no separator; directory, separator and file give the path back when
    the path holds a separator, and otherwise the directory is empty and the
    file is the path; and the file part is the name that the FILE field of the
    library shows for the same path. *)
Theorem driver_split (t : target) (path : string)
  (Hlen : strlen path <= size_max t) :
  let (dir, file) := RunAll.split t path in
  Str.mem (path_sep t) file = false
  /\ (if Str.mem (path_sep t) path
      then path = RunAll.command t dir file
      else dir = "" /\ file = path)
  /\ file = file_name t path.
Proof.
  unfold RunAll.split, RunAll.command.
  pose proof (find_last_of_spec (path_sep t) path) as H.
  destruct (RunAll.find_last_of (path_sep t) path) as [i|].
  - destruct H as (E & Hm). split; [exact Hm|]. split.
    + assert (Hp : Str.mem (path_sep t) path = true)
        by (rewrite E; apply mem_app_sep).
      rewrite Hp. exact E.
    + destruct (@file_name_spec t path Hlen) as ([(Hno & _)|(pre & Hpre)] & Hfn).
      * rewrite E, mem_app_sep in Hno. discriminate Hno.
      * rewrite Hpre in E at 1.
        exact (@last_split_unique _ _ _ _ _ (eq_sym E) Hm Hfn).
  - split; [exact H|]. rewrite H. split; [now split|].
    destruct (@file_name_spec t path Hlen) as ([(_ & Hf)|(pre & Hpre)] & _);
      [now symmetry|].
    rewrite Hpre, mem_app_sep in H. discriminate H.
Qed.

Lemma driver_split_witness :
  RunAll.split lp64 "build/test/run_all" = ("build/test", "run_all")
  /\ file_name lp64 "build/test/run_all" = "run_all".
Proof.
  pose proof (@driver_split lp64 "build/test/run_all"
                ltac:(vm_compute; discriminate)) as H.
  split; [reflexivity|]. symmetry. exact (proj2 (proj2 H)).
Defined.

(** X19. The driver runs the entries of the directory in order, never [.],
    [..] or itself, each as directory, separator and entry; it stops at the
    first command whose status is not zero and then returns [EXIT_FAILURE],
    printing a message exactly when that status is -1; it returns
    [EXIT_SUCCESS] exactly when every command it had to run returned zero. *)
Theorem driver_loop (h : RunAll.host) (t : target) (dir file : string)
  (files : list string) :
  let todo := List.filter (RunAll.runs file) files in
  let ok f := (RunAll.system h (RunAll.command t dir f) =? 0)%Z in
  let (ev, code) := RunAll.loop h t dir file files in
  ~ In "." todo /\ ~ In ".." todo /\ ~ In file todo
  /\ (if List.forallb ok todo
      then code = RunAll.EXIT_SUCCESS
           /\ RunAll.executed ev = List.map (RunAll.command t dir) todo
           /\ RunAll.printed ev = ""
      else code = RunAll.EXIT_FAILURE
           /\ exists pre f post,
                todo = (pre ++ f :: post)%list
                /\ List.forallb ok pre = true /\ ok f = false
                /\ RunAll.executed ev
                   = List.map (RunAll.command t dir) (pre ++ [f])%list
                /\ RunAll.printed ev
                   = if (RunAll.system h (RunAll.command t dir f) =? -1)%Z
                     then "Failed to execute binary " ++ f ++ newline
                     else "").
Proof.
  cbv zeta.
  assert (Hskip : forall x, In x (List.filter (RunAll.runs file) files) ->
                            x <> "." /\ x <> ".." /\ x <> file).
  { intros x Hx. apply List.filter_In in Hx. destruct Hx as (_ & Hx).
    unfold RunAll.runs in Hx.
    apply andb_prop in Hx. destruct Hx as (Hx & H3).
    apply andb_prop in Hx. destruct Hx as (H1 & H2).
    rewrite negb_true_iff, String.eqb_neq in H1, H2, H3. now repeat split. }
  destruct (RunAll.loop h t dir file files) as [ev code] eqn:E.
  split; [intros H; now apply Hskip in H|].
  split; [intros H; now apply Hskip in H|].
  split; [intros H; now apply Hskip in H|].
  clear Hskip. revert ev code E.
  induction files as [|f r IH]; intros ev code E; cbn [RunAll.loop] in E.
  - injection E as <- <-. cbn. now repeat split.
  - cbn [List.filter]. destruct (RunAll.runs file f); [|now apply IH].
    cbn [List.forallb]. unfold RunAll.EXIT_SUCCESS in *.
    destruct (RunAll.system h (RunAll.command t dir f) =? -1)%Z eqn:E1.
    + injection E as <- <-. apply Z.eqb_eq in E1.
      assert (E0 : (RunAll.system h (RunAll.command t dir f) =? 0)%Z = false)
        by (rewrite E1; reflexivity).
      rewrite E0. cbn [andb]. split; [reflexivity|].
      exists [], f, (List.filter (RunAll.runs file) r).
      rewrite E1. cbn. rewrite StrFacts.app_nil_r. now repeat split.
    + destruct (RunAll.system h (RunAll.command t dir f) =? 0)%Z eqn:E0;
        cbn [negb andb] in *.
      * destruct (RunAll.loop h t dir file r) as [ev' code'].
        injection E as <- <-. specialize (IH ev' code' eq_refl).
        destruct (List.forallb _ (List.filter (RunAll.runs file) r)).
        -- destruct IH as (-> & Hex & Hpr). cbn. rewrite Hex, Hpr.
           now repeat split.
        -- destruct IH as (-> & pre & g & post & Htodo & Hpre & Hg & Hex & Hpr).
           split; [reflexivity|]. exists (f :: pre), g, post.
           rewrite Htodo. cbn. rewrite E0, Hpre, Hex, Hpr.
           now repeat split.
      * injection E as <- <-. split; [reflexivity|].
        exists [], f, (List.filter (RunAll.runs file) r).
        rewrite E1. cbn. now repeat split.
Qed.

(** X20. Called with further arguments the driver prints its usage line and
    returns [EXIT_SUCCESS] without running anything.  Called with a path that
    holds no separator it reads the directory with the empty name: it throws
    when that cannot be opened, and otherwise every command it runs starts with
    the separator, so names a file of the root directory. *)
Theorem driver_main (h : RunAll.host) (t : target) (argv0 : string)
  (args : list string) :
  (args <> [] ->
   RunAll.main h t argv0 args
   = ([RunAll.Print ("Usage: " ++ argv0 ++ newline)],
      RunAll.Return RunAll.EXIT_SUCCESS))
  /\ (args = [] -> Str.mem (path_sep t) argv0 = false ->
      match RunAll.readdir h "" with
      | None =>
          RunAll.main h t argv0 args
          = ([], RunAll.Throw "Failed to open directory ''")
      | Some files =>
          exists code,
            snd (RunAll.main h t argv0 args) = RunAll.Return code
            /\ forall cmd,
                 In cmd (RunAll.executed (fst (RunAll.main h t argv0 args))) ->
                 exists f, In f files /\ cmd = String (path_sep t) f
      end).
Proof.
  split.
  - intros H. destruct args as [|a args]; [now contradiction H|]. reflexivity.
  - intros -> Hm. unfold RunAll.main. cbn [List.length Nat.add Nat.eqb negb].
    unfold RunAll.split.
    pose proof (find_last_of_spec (path_sep t) argv0) as H.
    destruct (RunAll.find_last_of (path_sep t) argv0) as [i|].
    { destruct H as (E & _). rewrite E, mem_app_sep in Hm. discriminate Hm. }
    unfold RunAll.get_file_names.
    destruct (RunAll.readdir h "") as [files|]; [|reflexivity].
    pose proof (@loop_executed h t "" argv0 files) as Hl.
    destruct (RunAll.loop h t "" argv0 files) as [ev code].
    exists code. split; [reflexivity|]. cbn [fst] in *.
    intros cmd Hc. destruct (Hl cmd Hc) as (f & Hf & _ & ->).
    exists f. now split.
Qed.

Lemma driver_main_witness :
  RunAll.main (RunAll.Host (fun _ => None) (fun _ => 0%Z)) lp64 "run_all"
    ["-v"]
  = ([RunAll.Print ("Usage: run_all" ++ newline)],
     RunAll.Return RunAll.EXIT_SUCCESS)
  /\ RunAll.main (RunAll.Host (fun _ => None) (fun _ => 0%Z)) lp64 "run_all" []
     = ([], RunAll.Throw "Failed to open directory ''").
Proof.
  split.
  - apply (proj1 (driver_main (RunAll.Host (fun _ => None) (fun _ => 0%Z))
                    lp64 "run_all" ["-v"])).
    discriminate.
  - apply (proj2 (driver_main (RunAll.Host (fun _ => None) (fun _ => 0%Z))
                    lp64 "run_all" []));
      reflexivity.
Defined.
